(** * Task-state synchronisation of the asynchronous image generator

    A shallow embedding of

    - [pkg/db/image_generation_db.py]   (the Store: [ImageGenerationDB]),
    - [pkg/api/image_generation_api.py] (the completion-ingress endpoint and
      the list query),
    - [pkg/tools/image_generator.py]    (the session cache, the runner, the
      notifier and the reconciler: [ImageGeneratorTools]),

    followed by the properties of the design document, each stated over the
    embedded functions.

    Conventions.  The SQL table is a list of rows in insertion order; every
    Store method is one transaction and is modelled as a pure function on
    that list.  The clock ([datetime.utcnow()]), the uuid generator, the
    prompt extracted from the conversation and the outcome of the HTTP post
    are inputs of the functions that consult them.  So is the part of
    [datetime.fromisoformat] that depends on the version of Python: the
    development is made for every [Python], and the properties are instantiated
    at the end, on concrete inputs.  A cache entry is a
    Python [dict] from field names to values, a [gmap]; the values that
    occur are strings and [None]. *)

From Stdlib Require Import ZArith NArith Ascii String List Lia Bool.
From Stdlib Require Import Sorting.Sorted Permutation OrdersEx.
From stdpp Require Import base option list strings gmap fin_maps sorting.

Open Scope string_scope.
Open Scope list_scope.

(* ===================================================================== *)
(** * Python values and exceptions *)
(* ===================================================================== *)

(** The values stored under the keys of a cache entry. *)
Inductive pyval : Type :=
| PNone
| PStr (s : string).

#[global] Instance pyval_eq_dec : EqDecision pyval.
Proof. solve_decision. Defined.

(** Truthiness: [None] and the empty string are falsy. *)
Definition truthy (v : pyval) : bool :=
  match v with
  | PStr s => negb (String.eqb s "")
  | PNone => false
  end.

Definition opt_to_py (o : option string) : pyval :=
  match o with
  | Some s => PStr s
  | None => PNone
  end.

Inductive exception : Type :=
| TypeError        (* comparison of [None] inside [list.sort] *)
| IntegrityError   (* primary-key violation on insert *)
| ValidationError  (* request parameter rejected by the API layer *)
| OverflowError    (* an integer that does not fit the 64 bits of SQLite *)
| ServerError.     (* [HTTPException(status_code=500)] *)

Inductive result (A : Type) : Type :=
| Ok (a : A)
| Raise (e : exception).
Arguments Ok {A} a.
Arguments Raise {A} e.

(* ===================================================================== *)
(** * Timestamps *)
(* ===================================================================== *)

(** A naive [datetime]: the fields of the Python object. *)
Record datetime : Type := mkdt {
  year : N; month : N; day : N;
  hour : N; minute : N; second : N; microsecond : N
}.

#[global] Instance datetime_eq_dec : EqDecision datetime.
Proof. solve_decision. Defined.

Definition digit_char (n : N) : ascii :=
  ascii_of_N (48 + n mod 10).

(** [n] in decimal, zero-padded to [w] digits (the [%0wd] of the
    formatting code; every field of a [datetime] fits its width). *)
Fixpoint pad (w : nat) (n : N) : string :=
  match w with
  | O => ""
  | S w' => pad w' (n / 10) ++ String (digit_char n) ""
  end.

(** [datetime.isoformat()]: the fraction is printed only when it is not
    zero. *)
Definition isoformat (d : datetime) : string :=
  pad 4 (year d) ++ "-" ++ pad 2 (month d) ++ "-" ++ pad 2 (day d) ++ "T" ++
  pad 2 (hour d) ++ ":" ++ pad 2 (minute d) ++ ":" ++ pad 2 (second d) ++
  (if (microsecond d =? 0)%N then "" else "." ++ pad 6 (microsecond d)).

(** The text SQLite keeps for a [DateTime] column; [ORDER BY] compares
    these texts. *)
Definition storage_format (d : datetime) : string :=
  pad 4 (year d) ++ "-" ++ pad 2 (month d) ++ "-" ++ pad 2 (day d) ++ " " ++
  pad 2 (hour d) ++ ":" ++ pad 2 (minute d) ++ ":" ++ pad 2 (second d) ++
  "." ++ pad 6 (microsecond d).

Definition digit_of (a : ascii) : option N :=
  let n := N_of_ascii a in
  if ((48 <=? n) && (n <=? 57))%N then Some (n - 48)%N else None.

Fixpoint digits_from (acc : N) (l : list ascii) : option N :=
  match l with
  | [] => Some acc
  | a :: l' =>
      match digit_of a with
      | Some d => digits_from (10 * acc + d)%N l'
      | None => None
      end
  end.

Definition number (l : list ascii) : option N :=
  match l with
  | [] => None
  | _ => digits_from 0%N l
  end.

Definition is_leap (y : N) : bool :=
  ((y mod 4 =? 0) && (negb (y mod 100 =? 0) || (y mod 400 =? 0)))%N.

Definition days_in_month (y m : N) : N :=
  if (m =? 2)%N then (if is_leap y then 29 else 28)%N
  else if ((m =? 4) || (m =? 6) || (m =? 9) || (m =? 11))%N then 30%N
  else 31%N.

Definition parse_date (l : list ascii) : option (N * N * N) :=
  match l with
  | [y1; y2; y3; y4; s1; m1; m2; s2; d1; d2] =>
      if Ascii.eqb s1 "-" && Ascii.eqb s2 "-" then
        y ← number [y1; y2; y3; y4];
        m ← number [m1; m2];
        d ← number [d1; d2];
        if ((1 <=? y) && (1 <=? m) && (m <=? 12) &&
            (1 <=? d) && (d <=? days_in_month y m))%N
        then Some (y, m, d) else None
      else None
  | _ => None
  end.

Definition parse_hms (l : list ascii) : option (N * N * N) :=
  match l with
  | [h1; h2; s1; m1; m2; s2; c1; c2] =>
      if Ascii.eqb s1 ":" && Ascii.eqb s2 ":" then
        h ← number [h1; h2];
        m ← number [m1; m2];
        s ← number [c1; c2];
        if ((h <=? 23) && (m <=? 59) && (s <=? 59))%N
        then Some (h, m, s) else None
      else None
  | _ => None
  end.

(** The fraction of a second: three or six digits after the point. *)
Definition parse_fraction (l : list ascii) : option N :=
  match l with
  | [] => Some 0%N
  | p :: ds =>
      if Ascii.eqb p "." then
        match length ds with
        | 3%nat => n ← number ds; Some (n * 1000)%N
        | 6%nat => number ds
        | _ => None
        end
      else None
  end.

(** A trailing UTC offset [+HH:MM] or [-HH:MM]. *)
Definition is_offset (l : list ascii) : bool :=
  match l with
  | [sg; h1; h2; c; m1; m2] =>
      (Ascii.eqb sg "+" || Ascii.eqb sg "-") && Ascii.eqb c ":" &&
      match number [h1; h2], number [m1; m2] with
      | Some h, Some m => ((h <=? 23) && (m <=? 59))%N
      | _, _ => false
      end
  | _ => false
  end.

Definition strip_offset (l : list ascii) : list ascii :=
  let n := length l in
  if is_offset (drop (n - 6) l) then take (n - 6) l else l.

(** The texts every version of [datetime.fromisoformat] reads alike: the
    texts [isoformat] emits (the date, a separator, the time to the second,
    a fraction of three or six digits or none), a date alone, and the same
    followed by a UTC offset.  The offset is not kept: the column stores the
    fields only.  [None] says that the text is not of these forms, not that
    it is rejected. *)
Definition fromisoformat_known (s : string) : option datetime :=
  let l := list_ascii_of_string s in
  match parse_date (take 10 l) with
  | None => None
  | Some (y, m, d) =>
      match drop 10 l with
      | [] => Some (mkdt y m d 0 0 0 0)
      | _ :: rest =>
          let rest := strip_offset rest in
          match parse_hms (take 8 rest), parse_fraction (drop 8 rest) with
          | Some (h, mi, sc), Some us => Some (mkdt y m d h mi sc us)
          | _, _ => None
          end
      end
  end.

(** What [datetime.fromisoformat] does with every other text depends on the
    version of Python (["2024-05-17T12:00"] is read by all, a fraction of
    two digits or a week date by the recent ones): [further_formats] is
    that reading, [None] for [ValueError]. *)
Class Python : Type := further_formats : string -> option datetime.

(** A [Python] for the examples, which reads no further text: the one text
    the examples submit that is not of the forms above is no timestamp for
    any version. *)
Definition known_formats_only : Python := fun _ => None.

(** [s.replace("Z", "+00:00")]. *)
Fixpoint replace_Z (s : string) : string :=
  match s with
  | EmptyString => EmptyString
  | String a s' =>
      if Ascii.eqb a "Z" then "+00:00" ++ replace_Z s'
      else String a (replace_Z s')
  end.

(* ===================================================================== *)
(** * The Store: [ImageGenerationDB] *)
(* ===================================================================== *)

(** A row of [image_generation_tasks].  [id] is the primary key and
    [prompt] is [NOT NULL]; [status] is written by every insert and is never
    set to [None] afterwards; the other columns are nullable. *)
Record ImageGenerationTask : Type := mkTask {
  id : string;
  prompt : string;
  status : string;
  image_url : option string;
  error_message : option string;
  created_at : option datetime;
  completed_at : option datetime;
  session_id : option string;
  run_id : option string
}.

#[global] Instance task_eq_dec : EqDecision ImageGenerationTask.
Proof. solve_decision. Defined.

(** The table, in insertion order. *)
Definition Store : Type := list ImageGenerationTask.

(** [db.query(...).filter_by(id=task_id).first()] *)
Definition get_task (db : Store) (task_id : string) : option ImageGenerationTask :=
  List.find (fun t => String.eqb (id t) task_id) db.

(** [create_task]: the insert is rejected by the primary key when the id is
    in the table; the transaction is rolled back and the exception
    re-raised. *)
Definition create_task (db : Store) (task_id prompt_ : string)
    (session_id_ run_id_ : option string) (now : datetime)
  : result (Store * ImageGenerationTask) :=
  match get_task db task_id with
  | Some _ => Raise IntegrityError
  | None =>
      let task := {| id := task_id; prompt := prompt_; status := "pending";
                     image_url := None; error_message := None;
                     created_at := Some now; completed_at := None;
                     session_id := session_id_; run_id := run_id_ |} in
      Ok (db ++ [task], task)
  end.

(** The four [if ... is not None] assignments of [update_task]. *)
Definition set_fields (status_ image_url_ error_message_ : option string)
    (completed_at_ : option datetime) (t : ImageGenerationTask)
  : ImageGenerationTask :=
  {| id := id t;
     prompt := prompt t;
     status := match status_ with Some s => s | None => status t end;
     image_url := match image_url_ with Some u => Some u | None => image_url t end;
     error_message :=
       match error_message_ with Some e => Some e | None => error_message t end;
     created_at := created_at t;
     completed_at :=
       match completed_at_ with Some c => Some c | None => completed_at t end;
     session_id := session_id t;
     run_id := run_id t |}.

(** Rewrite the row whose key is [task_id]. *)
Fixpoint write_row (f : ImageGenerationTask -> ImageGenerationTask)
    (task_id : string) (db : Store) : Store :=
  match db with
  | [] => []
  | t :: db' =>
      if String.eqb (id t) task_id then f t :: db'
      else t :: write_row f task_id db'
  end.

(** [update_task]: the new table and the refreshed row, [None] when the id is
    unknown. *)
Definition update_task (db : Store) (task_id : string)
    (status_ image_url_ error_message_ : option string)
    (completed_at_ : option datetime)
  : Store * option ImageGenerationTask :=
  match get_task db task_id with
  | None => (db, None)
  | Some t =>
      let f := set_fields status_ image_url_ error_message_ completed_at_ in
      (write_row f task_id db, Some (f t))
  end.

(** [if status:] and its two siblings: a filter applies when the argument is
    a non-empty string. *)
Definition filter_on {A : Type} (arg : option string)
    (col : A -> option string) (t : A) : bool :=
  match arg with
  | None => true
  | Some s =>
      if String.eqb s "" then true
      else match col t with
           | Some c => String.eqb c s
           | None => false
           end
  end.

Definition matches (status_ session_id_ run_id_ : option string)
    (t : ImageGenerationTask) : bool :=
  filter_on status_ (fun t => Some (status t)) t &&
  filter_on session_id_ session_id t &&
  filter_on run_id_ run_id t.

(** ** Sorting, newest first

    [ORDER BY ... DESC] and [list.sort(key=..., reverse=True)] both put the
    larger keys first; Python's sort is stable and keeps the original order
    among equal keys, and the same choice is made for the rows SQLite leaves
    unordered.  [below x y] says that the key of [x] is strictly smaller than
    the key of [y]. *)
Section StableSort.
Context {A : Type} (below : A -> A -> bool).

Fixpoint insert_desc (x : A) (l : list A) : list A :=
  match l with
  | [] => [x]
  | y :: l' => if below x y then y :: insert_desc x l' else x :: l
  end.

Definition sort_desc (l : list A) : list A := foldr insert_desc [] l.
End StableSort.

(** The sort key of a row: SQLite puts [NULL] below every text. *)
Definition created_key (t : ImageGenerationTask) : option string :=
  storage_format <$> created_at t.

Definition key_below (a b : option string) : bool :=
  match a, b with
  | None, Some _ => true
  | Some x, Some y => String.ltb x y
  | _, None => false
  end.

Definition row_below (a b : ImageGenerationTask) : bool :=
  key_below (created_key a) (created_key b).

(** [.offset(offset).limit(limit)]: SQLite reads a negative limit as no
    limit and a negative offset as zero. *)
Definition page {A : Type} (limit offset : Z) (l : list A) : list A :=
  let l' := drop (Z.to_nat offset) l in
  if (limit <? 0)%Z then l' else take (Z.to_nat limit) l'.

(** The integers SQLite binds: a Python [int] outside the 64 bits makes the
    execution of the statement raise [OverflowError]. *)
Definition fits_int64 (z : Z) : bool :=
  ((- 2 ^ 63 <=? z) && (z <? 2 ^ 63))%Z.

(** [list_tasks]: the count is taken before the ordering and paging; the
    limit and the offset are parameters of the second statement, whose
    exception is not caught. *)
Definition list_tasks (db : Store) (status_ session_id_ run_id_ : option string)
    (limit offset : Z) : result (nat * list ImageGenerationTask) :=
  let query := List.filter (matches status_ session_id_ run_id_) db in
  let total := length query in
  if fits_int64 limit && fits_int64 offset
  then Ok (total, page limit offset (sort_desc row_below query))
  else Raise OverflowError.

(** [get_all_tasks] *)
Definition get_all_tasks (db : Store) (status_ session_id_ run_id_ : option string)
  : nat * list ImageGenerationTask :=
  let query := List.filter (matches status_ session_id_ run_id_) db in
  (length query, sort_desc row_below query).

(** A cache entry / task dictionary. *)
Abbreviation entry := (gmap string pyval).

(** [task_to_dict]: all nine keys are present, the empty columns as
    [None]. *)
Definition task_to_dict (t : ImageGenerationTask) : entry :=
  <["task_id" := PStr (id t)]>
  (<["prompt" := PStr (prompt t)]>
  (<["status" := PStr (status t)]>
  (<["image_url" := opt_to_py (image_url t)]>
  (<["error_message" := opt_to_py (error_message t)]>
  (<["created_at" := opt_to_py (isoformat <$> created_at t)]>
  (<["completed_at" := opt_to_py (isoformat <$> completed_at t)]>
  (<["session_id" := opt_to_py (session_id t)]>
  (<["run_id" := opt_to_py (run_id t)]> ∅)))))))).

(* ===================================================================== *)
(** * The API layer: [register_image_generation_api] *)
(* ===================================================================== *)

(** The request body of the completion callback. *)
Record ImageGenerationCallback : Type := mkCallback {
  cb_task_id : string;
  cb_status : string;
  cb_image_url : string;
  cb_completed_at : string;
  cb_error_message : option string
}.

Inductive http_reply : Type :=
| Http200          (* [WebhookResponse(success=True, ...)] *)
| Http404          (* the task does not exist *)
| Http422.         (* a query parameter is out of range *)

(** From here on, for any [Python]. *)
Section Model.
Context {python : Python}.

(** [datetime.fromisoformat]: the texts every version reads, then the
    others; [None] stands for [ValueError]. *)
Definition fromisoformat (s : string) : option datetime :=
  match fromisoformat_known s with
  | Some d => Some d
  | None => further_formats s
  end.

(** [image_generation_callback], received at time [now]: the timestamp of
    the body when it parses, the time of receipt otherwise; then one
    [update_task] with the fields of the body. *)
Definition image_generation_callback (db : Store) (now : datetime)
    (callback : ImageGenerationCallback) : Store * http_reply :=
  let completed :=
    match fromisoformat (replace_Z (cb_completed_at callback)) with
    | Some d => d
    | None => now
    end in
  match update_task db (cb_task_id callback)
          (Some (cb_status callback)) (Some (cb_image_url callback))
          (cb_error_message callback) (Some completed) with
  | (db', Some _) => (db', Http200)
  | (db', None) => (db', Http404)
  end.

(** The [GET /api/tasks] endpoint: [limit] within 1..1000 and [offset] not
    negative, or the request is rejected; the rows are returned as
    dictionaries; an exception of the query becomes the reply 500. *)
Definition api_list_tasks (db : Store) (status_ session_id_ run_id_ : option string)
    (limit offset : Z) : result (nat * list entry) :=
  if ((1 <=? limit) && (limit <=? 1000) && (0 <=? offset))%Z then
    match list_tasks db status_ session_id_ run_id_ limit offset with
    | Ok (total, tasks) => Ok (total, map task_to_dict tasks)
    | Raise _ => Raise ServerError
    end
  else Raise ValidationError.

(* ===================================================================== *)
(** * The session cache: [ImageGeneratorTools], session-state methods *)
(* ===================================================================== *)

Definition MAX_TASKS_IN_SESSION_STATE : nat := 20.

(** [d.get(k)]: [None] for a missing key. *)
Definition py_get (d : entry) (k : string) : pyval :=
  default PNone (d !! k).

(** The session state: the three keys the toolkit reads or writes. *)
Record SessionState : Type := mkSS {
  image_generation_tasks : option (list entry);
  ss_session_id : option string;
  ss_run_id : option string
}.

Definition empty_session_state : SessionState :=
  {| image_generation_tasks := None; ss_session_id := None; ss_run_id := None |}.

Definition set_tasks (s : SessionState) (tasks : list entry) : SessionState :=
  {| image_generation_tasks := Some tasks;
     ss_session_id := ss_session_id s;
     ss_run_id := ss_run_id s |}.

(** [_get_tasks_from_session_state] *)
Definition _get_tasks_from_session_state (session_state : option SessionState)
  : list entry :=
  match session_state with
  | None => []
  | Some s => default [] (image_generation_tasks s)
  end.

(** The loop of [_update_task_in_session_state]: the first entry with the
    same [task_id] becomes [{**task, **task_info}]; without one,
    [task_info] is appended. *)
Fixpoint upsert (tasks : list entry) (task_info : entry) : list entry :=
  match tasks with
  | [] => [task_info]
  | task :: rest =>
      if decide (py_get task "task_id" = py_get task_info "task_id")
      then (task_info ∪ task) :: rest
      else task :: upsert rest task_info
  end.

Definition _update_task_in_session_state (session_state : option SessionState)
    (task_info : entry) : option SessionState :=
  match session_state with
  | None => None
  | Some s =>
      Some (set_tasks s (upsert (default [] (image_generation_tasks s)) task_info))
  end.

(** [t.get("status") in ("pending", "processing")] *)
Definition non_terminal (t : entry) : bool :=
  bool_decide (py_get t "status" = PStr "pending") ||
  bool_decide (py_get t "status" = PStr "processing").

(** [x.get("created_at", "")] *)
Definition sort_key (t : entry) : pyval :=
  default (PStr "") (t !! "created_at").

Definition entry_below (a b : entry) : bool :=
  match sort_key a, sort_key b with
  | PStr x, PStr y => String.ltb x y
  | _, _ => false
  end.

Definition is_none (v : pyval) : bool :=
  match v with PNone => true | PStr _ => false end.

(** [completed_tasks.sort(key=..., reverse=True)]: with two or more
    elements every key takes part in a comparison, and a comparison with
    [None] raises. *)
Definition sort_by_created (l : list entry) : result (list entry) :=
  if (2 <=? length l)%nat && existsb (fun t => is_none (sort_key t)) l
  then Raise TypeError
  else Ok (sort_desc entry_below l).

(** [_cleanup_old_tasks] *)
Definition _cleanup_old_tasks (session_state : option SessionState)
  : result (option SessionState) :=
  match session_state with
  | None => Ok None
  | Some s =>
      let tasks := default [] (image_generation_tasks s) in
      if (length tasks <=? MAX_TASKS_IN_SESSION_STATE)%nat then Ok (Some s)
      else
        let pending_tasks := List.filter non_terminal tasks in
        let completed_tasks := List.filter (fun t => negb (non_terminal t)) tasks in
        match sort_by_created completed_tasks with
        | Raise e => Raise e
        | Ok sorted =>
            let remaining_slots :=
              (Z.of_nat MAX_TASKS_IN_SESSION_STATE - Z.of_nat (length pending_tasks))%Z in
            let kept_completed := take (Z.to_nat (Z.max 0 remaining_slots)) sorted in
            Ok (Some (set_tasks s (pending_tasks ++ kept_completed)))
        end
  end.

(* ===================================================================== *)
(** * The tools: [generate_image], [sync_pending_tasks], [check_task_status] *)
(* ===================================================================== *)

(** The strings the tools return, by their template. *)
Inductive message : Type :=
| NoPrompt                                   (* no prompt given or found *)
| TaskExists (task_id status_ : string)      (* the task exists, with its status *)
| TaskSubmitted (task_id : string)
| CreateFailed (e : exception)
| NoSessionState
| NothingToSync
| Synced (updated completed still_pending : nat)
| SyncFailed (e : exception)
| NoTaskId
| TaskMissing (task_id : string)
| StatusInfo (task_dict : entry).

(** What the call reads from the conversation framework: the result of
    [_extract_prompt_from_context(run_context, agent)], and the [run_id]
    attribute of [run_context] and of [agent] when they have one. *)
Record context : Type := mkContext {
  extracted_prompt : option string;
  run_context_run_id : option (option string);
  agent_run_id : option (option string)
}.

Definition no_context : context :=
  {| extracted_prompt := None; run_context_run_id := None; agent_run_id := None |}.

(** [not s] for an optional string argument. *)
Definition falsy (s : option string) : bool :=
  match s with
  | None => true
  | Some x => String.eqb x ""
  end.

Record generated : Type := mkGenerated {
  gen_message : message;
  gen_db : Store;
  gen_session_state : option SessionState;   (* the caller's object *)
  gen_worker : option (string * string)      (* thread started: task_id, prompt *)
}.

(** [generate_image].  [uuid] is the value [uuid.uuid4()] would give;
    [now_db] and [now_cache] are the two readings of the clock. *)
Definition generate_image (db : Store) (prompt_ task_id : option string)
    (ctx : context) (session_state : option SessionState)
    (uuid : string) (now_db now_cache : datetime) : generated :=
  let local := default empty_session_state session_state in
  let resolved := if falsy prompt_ then extracted_prompt ctx else prompt_ in
  match resolved with
  | None => mkGenerated NoPrompt db session_state None
  | Some p =>
      if String.eqb p "" then mkGenerated NoPrompt db session_state None
      else
        let tid := if falsy task_id then uuid else default uuid task_id in
        let run_id_ :=
          match run_context_run_id ctx, agent_run_id ctx with
          | Some r, _ => r
          | None, Some r => r
          | None, None => ss_run_id local
          end in
        match get_task db tid with
        | Some existing_task =>
            mkGenerated (TaskExists tid (status existing_task)) db session_state None
        | None =>
            match create_task db tid p (ss_session_id local) run_id_ now_db with
            | Raise e => mkGenerated (CreateFailed e) db session_state None
            | Ok (db', _) =>
                let task_info : entry :=
                  <["task_id" := PStr tid]>
                  (<["prompt" := PStr p]>
                  (<["status" := PStr "pending"]>
                  (<["created_at" := PStr (isoformat now_cache)]> ∅))) in
                let ss1 := _update_task_in_session_state (Some local) task_info in
                let seen s := match session_state with None => None | Some _ => s end in
                match _cleanup_old_tasks ss1 with
                | Raise e => mkGenerated (CreateFailed e) db' (seen ss1) None
                | Ok ss2 => mkGenerated (TaskSubmitted tid) db' (seen ss2) (Some (tid, p))
                end
            end
        end
  end.

(** The ids [sync_pending_tasks] looks up: the entries with a non-terminal
    status and a truthy [task_id]. *)
Definition pending_task_ids (tasks : list entry) : list string :=
  omap (fun t =>
          if non_terminal t && truthy (py_get t "task_id")
          then match py_get t "task_id" with PStr s => Some s | PNone => None end
          else None) tasks.

Record counters : Type := mkCounters {
  updated_count : nat; completed_count : nat; still_pending_count : nat
}.

(** The [for task_id in pending_task_ids] loop. *)
Fixpoint sync_loop (db : Store) (ids : list string)
    (session_state : option SessionState) (c : counters)
  : option SessionState * counters :=
  match ids with
  | [] => (session_state, c)
  | task_id :: ids' =>
      match get_task db task_id with
      | Some db_task =>
          let ss' := _update_task_in_session_state session_state (task_to_dict db_task) in
          let c' :=
            {| updated_count := S (updated_count c);
               completed_count :=
                 if String.eqb (status db_task) "completed"
                 then S (completed_count c) else completed_count c;
               still_pending_count :=
                 if String.eqb (status db_task) "completed" then still_pending_count c
                 else if String.eqb (status db_task) "pending"
                         || String.eqb (status db_task) "processing"
                 then S (still_pending_count c) else still_pending_count c |} in
          sync_loop db ids' ss' c'
      | None => sync_loop db ids' session_state c
      end
  end.

(** [sync_pending_tasks]: the message and the session state afterwards.  An
    exception of the clean-up is caught; the merges done before it stay. *)
Definition sync_pending_tasks (db : Store) (session_state : option SessionState)
  : message * option SessionState :=
  match session_state with
  | None => (NoSessionState, None)
  | Some _ =>
      let tasks_in_state := _get_tasks_from_session_state session_state in
      let ids := pending_task_ids tasks_in_state in
      match ids with
      | [] => (NothingToSync, session_state)
      | _ =>
          let '(ss1, c) := sync_loop db ids session_state (mkCounters 0 0 0) in
          match _cleanup_old_tasks ss1 with
          | Raise e => (SyncFailed e, ss1)
          | Ok ss2 =>
              (Synced (updated_count c) (completed_count c) (still_pending_count c), ss2)
          end
      end
  end.

(** [check_task_status] *)
Definition check_task_status (db : Store) (task_id : string)
    (session_state : option SessionState) : message * option SessionState :=
  if String.eqb task_id "" then (NoTaskId, session_state)
  else
    match get_task db task_id with
    | None => (TaskMissing task_id, session_state)
    | Some db_task =>
        let task_dict := task_to_dict db_task in
        (StatusInfo task_dict, _update_task_in_session_state session_state task_dict)
    end.

(* ===================================================================== *)
(** * The runner and the notifier *)
(* ===================================================================== *)

Inductive post_exception : Type :=
| ConnectError
| TimeoutException
| OtherException.

(** What [client.post] gives back. *)
Inductive post_result : Type :=
| Response (status_code : Z)
| Raised (e : post_exception).

(** What happens to the request on the way: it is served by the callback
    endpoint at [receipt] and the reply comes back; or the post raises,
    after the endpoint has served the request or without; or something else
    than the endpoint answers. *)
Inductive transport : Type :=
| Delivered (receipt : datetime)
| Faulted (served : option datetime) (e : post_exception)
| Foreign (status_code : Z).

Definition status_code_of (r : http_reply) : Z :=
  match r with
  | Http200 => 200
  | Http404 => 404
  | Http422 => 422
  end.

Definition post (db : Store) (tr : transport) (payload : ImageGenerationCallback)
  : Store * post_result :=
  match tr with
  | Delivered receipt =>
      let '(db', r) := image_generation_callback db receipt payload in
      (db', Response (status_code_of r))
  | Faulted (Some receipt) e =>
      (fst (image_generation_callback db receipt payload), Raised e)
  | Faulted None e => (db, Raised e)
  | Foreign c => (db, Response c)
  end.

(** The direct write of the notifier, the same in its four branches. *)
Definition fallback (db : Store) (task_id image_url_ : string) (now : datetime)
  : Store :=
  fst (update_task db task_id (Some "completed") (Some image_url_) None (Some now)).

(** The [payload] of [_call_webhook]. *)
Definition completion_payload (task_id image_url_ : string) (now : datetime)
  : ImageGenerationCallback :=
  {| cb_task_id := task_id; cb_status := "completed";
     cb_image_url := image_url_;
     cb_completed_at := isoformat now;
     cb_error_message := None |}.

(** [_call_webhook]: the states of the Store after the post and, when it is
    made, after the direct write.  [now_payload] is the clock read for the
    payload, [now_fallback] the one read for the direct write. *)
Definition _call_webhook (db : Store) (task_id image_url_ : string)
    (now_payload now_fallback : datetime) (tr : transport) : list Store :=
  let payload := completion_payload task_id image_url_ now_payload in
  let '(db1, r) := post db tr payload in
  match r with
  | Response c =>
      if (c =? 200)%Z then [db1]
      else [db1; fallback db1 task_id image_url_ now_fallback]
  | Raised ConnectError => [db1; fallback db1 task_id image_url_ now_fallback]
  | Raised TimeoutException => [db1; fallback db1 task_id image_url_ now_fallback]
  | Raised OtherException => [db1; fallback db1 task_id image_url_ now_fallback]
  end.

(** The unit of work: it ends, or it raises with a message. *)
Inductive work : Type :=
| Finished
| Throws (msg : string).

(** [_async_generate_image]: the successive states of the Store, one per
    write, in order. *)
Definition _async_generate_image (db : Store) (task_id : string) (w : work)
    (now_payload now_fallback : datetime) (tr : transport) : list Store :=
  match get_task db task_id with
  | None => []
  | Some _ =>
      let db1 := fst (update_task db task_id (Some "processing") None None None) in
      match w with
      | Throws msg =>
          [db1; fst (update_task db1 task_id (Some "failed") None (Some msg) None)]
      | Finished =>
          let image_url_ :=
            ("https://example.com/generated-images/" ++ task_id ++ ".png")%string in
          db1 :: _call_webhook db1 task_id image_url_ now_payload now_fallback tr
      end
  end.

(** ** Writes to the Store, as a sequence

    Every write the system makes is one of these. *)
Inductive op : Type :=
| Create (task_id prompt_ : string) (session_id_ run_id_ : option string)
         (now : datetime)
| RunnerStart (task_id : string)
| RunnerFail (task_id msg : string)
| NotifierFallback (task_id image_url_ : string) (now : datetime)
| ReceiverUpdate (callback : ImageGenerationCallback) (now : datetime).

Definition apply_op (db : Store) (o : op) : Store :=
  match o with
  | Create task_id p s r now =>
      match create_task db task_id p s r now with
      | Ok (db', _) => db'
      | Raise _ => db
      end
  | RunnerStart task_id =>
      fst (update_task db task_id (Some "processing") None None None)
  | RunnerFail task_id msg =>
      fst (update_task db task_id (Some "failed") None (Some msg) None)
  | NotifierFallback task_id u now => fallback db task_id u now
  | ReceiverUpdate callback now => fst (image_generation_callback db now callback)
  end.

Definition run (db : Store) (ops : list op) : Store := foldl apply_op db ops.

(* ===================================================================== *)
(** * The vocabulary of the properties *)
(* ===================================================================== *)

(** A non-empty prompt is given, or one is found in the conversation. *)
Definition prompt_resolves (prompt_ : option string) (ctx : context) : bool :=
  negb (falsy prompt_) || negb (falsy (extracted_prompt ctx)).

Definition terminal (s : string) : bool :=
  String.eqb s "completed" || String.eqb s "failed".

Definition has_completed_at (t : ImageGenerationTask) : bool :=
  match completed_at t with Some _ => true | None => false end.

(** The order the writes come in when nothing but the worker of a task and
    terminal callbacks touch its row: the runner moves to ["processing"] a
    row that has no [completed_at] yet, and a callback carries a terminal
    status. *)
Definition in_order (db : Store) (o : op) : bool :=
  match o with
  | RunnerStart task_id =>
      match get_task db task_id with
      | Some t => negb (has_completed_at t)
      | None => true
      end
  | ReceiverUpdate callback _ => terminal (cb_status callback)
  | _ => true
  end.

Fixpoint all_in_order (db : Store) (ops : list op) : bool :=
  match ops with
  | [] => true
  | o :: ops' => in_order db o && all_in_order (apply_op db o) ops'
  end.

(** The states of the Store after each write of a sequence. *)
Fixpoint history (db : Store) (ops : list op) : list Store :=
  match ops with
  | [] => []
  | o :: ops' => apply_op db o :: history (apply_op db o) ops'
  end.

(** The status of a task in each state where it has a row. *)
Definition observed (task_id : string) (states : list Store) : list string :=
  omap (fun db => status <$> get_task db task_id) states.

(** A status seen again in the next state is no transition. *)
Fixpoint squash (l : list string) : list string :=
  match l with
  | [] => []
  | x :: l' =>
      match l' with
      | y :: _ => if String.eqb x y then squash l' else x :: squash l'
      | [] => [x]
      end
  end.

(** The sequence [l] of observed values runs along
    pending -> processing -> completed or pending -> processing -> failed. *)
Definition follows_lifecycle (l : list string) : Prop :=
  squash l `sublist_of` ["pending"; "processing"; "completed"] ∨
  squash l `sublist_of` ["pending"; "processing"; "failed"].

(** In a list sorted newest first no element is below a later one. *)
Definition descending {A : Type} (below : A → A → bool) : list A → Prop :=
  StronglySorted (fun a b => below a b = false).

(** What the filters of a query ask of a row: each filter that is given and
    not empty is met. *)
Definition satisfies (status_ session_id_ run_id_ : option string)
    (t : ImageGenerationTask) : Prop :=
  (∀ s, status_ = Some s → s ≠ "" → status t = s) ∧
  (∀ s, session_id_ = Some s → s ≠ "" → session_id t = Some s) ∧
  (∀ s, run_id_ = Some s → s ≠ "" → run_id t = Some s).

(** The entries eviction always keeps, and the others. *)
Definition pending_of (tasks : list entry) : list entry :=
  List.filter non_terminal tasks.

Definition completed_of (tasks : list entry) : list entry :=
  List.filter (fun t => negb (non_terminal t)) tasks.

(** No [created_at] is [None]: the keys of the sort are strings. *)
Definition text_keys (tasks : list entry) : Prop :=
  Forall (fun t => is_none (sort_key t) = false) tasks.

(** The [task_id] of an entry when it is a string. *)
Definition text_id (t : entry) : option string :=
  match py_get t "task_id" with
  | PStr s => Some s
  | PNone => None
  end.

(** The cache is keyed by [task_id]: no two entries carry the same one. *)
Definition unique_ids (tasks : list entry) : Prop :=
  NoDup (omap text_id tasks).

(** The state the [try] block of a tool leaves: the result of the clean-up,
    or the state before it when the clean-up raises. *)
Definition after_cleanup (session_state : option SessionState)
  : option SessionState :=
  match _cleanup_old_tasks session_state with
  | Ok ss => ss
  | Raise _ => session_state
  end.

(** One turn of the loop of [sync_pending_tasks], on the list of entries. *)
Definition sync_step (db : Store) (tasks : list entry) (task_id : string)
  : list entry :=
  match get_task db task_id with
  | Some db_task => upsert tasks (task_to_dict db_task)
  | None => tasks
  end.

(** What one turn does to a single entry of a cache keyed by [task_id]. *)
Definition refresh (db : Store) (task_id : string) (t : entry) : entry :=
  if decide (text_id t = Some task_id) then
    match get_task db task_id with
    | Some db_task => task_to_dict db_task ∪ t
    | None => t
    end
  else t.

(** Merging the row of its task into [t] changes nothing. *)
Definition absorbed (db : Store) (t : entry) : Prop :=
  ∀ x db_task,
    text_id t = Some x → get_task db x = Some db_task →
    task_to_dict db_task ∪ t = t.

(** Every entry sync would look up is up to date. *)
Definition settled (db : Store) (tasks : list entry) : Prop :=
  ∀ t, t ∈ tasks → non_terminal t = true → truthy (py_get t "task_id") = true →
       absorbed db t.

(** Every row has a [created_at]: [create_task] always writes one and no
    update touches it. *)
Definition dated (db : Store) : Prop :=
  ∀ t, t ∈ db → created_at t ≠ None.

(** The two conditions on a cache the properties rely on: keyed by
    [task_id], and no [created_at] that is [None]. *)
Definition well_formed (tasks : list entry) : Prop :=
  unique_ids tasks ∧ text_keys tasks.

(** [db'] differs from [db] at most in the fields of the row of [task_id]:
    the same ids in the same order, and every other id reads the same. *)
Definition same_but (task_id : string) (db db' : Store) : Prop :=
  map id db' = map id db ∧
  ∀ other, other ≠ task_id → get_task db' other = get_task db other.

(** The url the placeholder generation gives a task. *)
Definition generated_url (task_id : string) : string :=
  "https://example.com/generated-images/" ++ task_id ++ ".png".

(** What [sync_pending_tasks] does to one entry of a cache keyed by
    [task_id]: an entry in progress with a truthy id takes the fields of its
    row when the Store has one; every other entry stays. *)
Definition sync_entry (db : Store) (t : entry) : entry :=
  if non_terminal t && truthy (py_get t "task_id") then
    match text_id t ≫= get_task db with
    | Some db_task => task_to_dict db_task ∪ t
    | None => t
    end
  else t.

(** The prompt [generate_image] works with is [p]: the argument when it is
    not empty, else the one found in the conversation. *)
Definition resolves_to (prompt_ : option string) (ctx : context) (p : string)
  : Prop :=
  p ≠ "" ∧
  (prompt_ = Some p ∨ (falsy prompt_ = true ∧ extracted_prompt ctx = Some p)).

(** The id [generate_image] works with: the argument when it is not empty,
    else the fresh uuid. *)
Definition used_id (task_id : option string) (uuid : string) : string :=
  match task_id with
  | Some x => if String.eqb x "" then uuid else x
  | None => uuid
  end.

(** The values of a [datetime]: the year within [MINYEAR]..[MAXYEAR], a day
    of the calendar, a time of the day to the microsecond. *)
Definition is_datetime (d : datetime) : bool :=
  ((1 <=? year d) && (year d <=? 9999) &&
   (1 <=? month d) && (month d <=? 12) &&
   (1 <=? day d) && (day d <=? days_in_month (year d) (month d)) &&
   (hour d <=? 23) && (minute d <=? 59) && (second d <=? 59) &&
   (microsecond d <=? 999999))%N.

(* ===================================================================== *)
(** * Example data *)
(* ===================================================================== *)

Definition noon : datetime := mkdt 2024 5 17 12 0 0 0.

Definition noon_5s : datetime := mkdt 2024 5 17 12 0 5 250000.

Definition noon_9s : datetime := mkdt 2024 5 17 12 0 9 0.

(** The row [create_task("t1", "fruit puree")] inserts at [noon], and the
    table that holds it alone. *)
Definition t1_pending : ImageGenerationTask :=
  {| id := "t1"; prompt := "fruit puree"; status := "pending";
     image_url := None; error_message := None;
     created_at := Some noon; completed_at := None;
     session_id := None; run_id := None |}.

Definition one_pending : Store := [t1_pending].

Definition t1_url : string := "https://example.com/generated-images/t1.png".

(** A callback body whose [completed_at] is not a timestamp. *)
Definition malformed_callback : ImageGenerationCallback :=
  {| cb_task_id := "t1"; cb_status := "completed"; cb_image_url := t1_url;
     cb_completed_at := "not-a-timestamp"; cb_error_message := None |}.

(** The same body with the timestamp the notifier writes. *)
Definition wellformed_callback : ImageGenerationCallback :=
  completion_payload "t1" t1_url noon_5s.

(** A callback that reports progress. *)
Definition progress_callback : ImageGenerationCallback :=
  {| cb_task_id := "t1"; cb_status := "processing"; cb_image_url := "";
     cb_completed_at := isoformat noon_5s; cb_error_message := None |}.

(** The writes of one task that completes through the fallback. *)
Definition fallback_run : list op :=
  [Create "t1" "fruit puree" None None noon;
   RunnerStart "t1";
   NotifierFallback "t1" t1_url noon_9s].

(** A callback sent by another caller after the task has completed. *)
Definition late_callback : ImageGenerationCallback :=
  {| cb_task_id := "t1"; cb_status := "pending"; cb_image_url := t1_url;
     cb_completed_at := isoformat noon_9s; cb_error_message := None |}.

(** Three rows, created one second apart, the second one completed. *)
Definition three_rows : Store :=
  [t1_pending;
   {| id := "t2"; prompt := "second"; status := "completed";
      image_url := Some t1_url; error_message := None;
      created_at := Some (mkdt 2024 5 17 12 0 1 0);
      completed_at := Some noon_9s; session_id := None; run_id := None |};
   {| id := "t3"; prompt := "third"; status := "pending";
      image_url := None; error_message := None;
      created_at := Some (mkdt 2024 5 17 12 0 2 0);
      completed_at := None; session_id := None; run_id := None |}].

(** The entry [generate_image] writes for ["t1"], and what the Store says
    about the task once it is completed. *)
Definition t1_entry : entry :=
  <["task_id" := PStr "t1"]>
  (<["prompt" := PStr "fruit puree"]>
  (<["status" := PStr "pending"]>
  (<["created_at" := PStr (isoformat noon)]> ∅))).

Definition t1_update : entry :=
  <["task_id" := PStr "t1"]>
  (<["status" := PStr "completed"]>
  (<["image_url" := PStr t1_url]> ∅)).

(** The entry of task number [i], created [i] seconds after noon. *)
Definition numbered (status_ : string) (i : nat) : entry :=
  <["task_id" := PStr ("task-" ++ pad 2 (N.of_nat i))]>
  (<["status" := PStr status_]>
  (<["created_at" := PStr ("2024-05-17T12:00:" ++ pad 2 (N.of_nat i))]> ∅)).

(** Five non-terminal entries, then thirty terminal ones, oldest first. *)
Definition crowded_tasks : list entry :=
  map (numbered "processing") (seq 0 5) ++ map (numbered "completed") (seq 5 30).

Definition crowded : SessionState :=
  {| image_generation_tasks := Some crowded_tasks;
     ss_session_id := Some "s-1"; ss_run_id := None |}.

(** An entry without a status. *)
Definition no_status : entry := <["task_id" := PStr "t9"]> ∅.

(** The Store once the task ["t1"] has been completed by the fallback. *)
Definition one_completed : Store := run [] fallback_run.

(** A session whose cache holds the entry [generate_image] wrote. *)
Definition t1_session : SessionState :=
  {| image_generation_tasks := Some [t1_entry];
     ss_session_id := Some "s-1"; ss_run_id := None |}.

(** An older, terminal entry for ["t1"]. *)
Definition stale_t1 : entry :=
  <["task_id" := PStr "t1"]>
  (<["status" := PStr "completed"]>
  (<["created_at" := PStr "2024-05-17T11:00:00"]> ∅)).

(* ===================================================================== *)
(** * Facts about the Store *)
(* ===================================================================== *)

Section StoreFacts.
Implicit Types (db : Store) (t : ImageGenerationTask).

Lemma id_set_fields st iu em ca t : id (set_fields st iu em ca t) = id t.
Proof. reflexivity. Qed.

Lemma get_task_id db task_id t : get_task db task_id = Some t → id t = task_id.
Proof.
  unfold get_task. intros H. apply find_some in H as [_ H].
  by apply String.eqb_eq.
Qed.

Lemma get_task_elem db task_id t : get_task db task_id = Some t → t ∈ db.
Proof.
  unfold get_task. intros H. apply find_some in H as [H _].
  by apply list_elem_of_In.
Qed.

Lemma get_task_write_row f db task_id t :
  (∀ x, id (f x) = id x) →
  get_task db task_id = Some t →
  get_task (write_row f task_id db) task_id = Some (f t).
Proof.
  intros Hf. unfold get_task. induction db as [|x db IH]; simpl; [done|].
  destruct (String.eqb (id x) task_id) eqn:E; simpl.
  - intros [= ->]. by rewrite Hf, E.
  - intros H. rewrite E. auto.
Qed.

Lemma get_task_write_row_ne f db task_id other :
  (∀ x, id (f x) = id x) →
  other ≠ task_id →
  get_task (write_row f task_id db) other = get_task db other.
Proof.
  intros Hf Hne. unfold get_task. induction db as [|x db IH]; simpl; [done|].
  destruct (String.eqb (id x) task_id) eqn:E; simpl.
  - rewrite Hf. apply String.eqb_eq in E.
    assert (String.eqb (id x) other = false) as ->; [|done].
    apply String.eqb_neq. congruence.
  - by rewrite IH.
Qed.

Lemma write_row_unknown f db task_id :
  get_task db task_id = None → write_row f task_id db = db.
Proof.
  unfold get_task. induction db as [|x db IH]; simpl; [done|].
  destruct (String.eqb (id x) task_id); [done|].
  intros H. by rewrite IH.
Qed.

Lemma length_write_row f db task_id :
  length (write_row f task_id db) = length db.
Proof.
  induction db as [|x db IH]; simpl; [done|].
  destruct (String.eqb (id x) task_id); simpl; congruence.
Qed.

Lemma elem_of_write_row f db task_id t :
  t ∈ write_row f task_id db →
  t ∈ db ∨ ∃ t0, get_task db task_id = Some t0 ∧ t = f t0.
Proof.
  unfold get_task. induction db as [|x db IH]; simpl; [by left|].
  destruct (String.eqb (id x) task_id) eqn:E.
  - rewrite !elem_of_cons. intros [->|H]; [right; by exists x | auto].
  - rewrite !elem_of_cons. intros [->|H]; [auto|].
    destruct (IH H) as [?|(t0 & ? & ?)]; [auto|].
    right. by exists t0.
Qed.

(** A write with the same fields a second time changes nothing. *)
Lemma write_row_twice st iu em ca db task_id :
  let f := set_fields st iu em ca in
  write_row f task_id (write_row f task_id db) = write_row f task_id db.
Proof.
  intros f. induction db as [|x db IH]; simpl; [done|].
  destruct (String.eqb (id x) task_id) eqn:E; simpl.
  - rewrite E. f_equal. subst f. destruct x, st, iu, em, ca; reflexivity.
  - rewrite E. by rewrite IH.
Qed.

Lemma update_task_known db task_id st iu em ca t :
  get_task db task_id = Some t →
  get_task (update_task db task_id st iu em ca).1 task_id
  = Some (set_fields st iu em ca t).
Proof.
  intros H. unfold update_task. rewrite H. simpl.
  by apply get_task_write_row.
Qed.

Lemma update_task_unknown db task_id st iu em ca :
  get_task db task_id = None →
  update_task db task_id st iu em ca = (db, None).
Proof. intros H. unfold update_task. by rewrite H. Qed.

Lemma update_task_other db task_id other st iu em ca :
  other ≠ task_id →
  get_task (update_task db task_id st iu em ca).1 other = get_task db other.
Proof.
  intros Hne. unfold update_task.
  destruct (get_task db task_id); simpl; [|done].
  by apply get_task_write_row_ne.
Qed.

Lemma elem_of_update_task db task_id st iu em ca t :
  t ∈ (update_task db task_id st iu em ca).1 →
  t ∈ db ∨ ∃ t0, get_task db task_id = Some t0 ∧ t = set_fields st iu em ca t0.
Proof.
  unfold update_task. destruct (get_task db task_id) eqn:E; simpl; [|by left].
  intros H. apply elem_of_write_row in H as [?|(t0 & H0 & ?)]; [auto|].
  right. exists t0. split; [|done]. unfold get_task in *. congruence.
Qed.

Lemma callback_store db now cb :
  (image_generation_callback db now cb).1
  = (update_task db (cb_task_id cb) (Some (cb_status cb)) (Some (cb_image_url cb))
       (cb_error_message cb)
       (Some (default now (fromisoformat (replace_Z (cb_completed_at cb)))))).1.
Proof.
  unfold image_generation_callback.
  destruct (fromisoformat _); simpl;
    match goal with |- context [update_task ?a ?b ?c ?d ?e ?f] =>
      by destruct (update_task a b c d e f) as [? [?|]] end.
Qed.
End StoreFacts.

(* ===================================================================== *)
(** * The notifier falls back to a direct write *)
(* ===================================================================== *)

Lemma fallback_known db task_id image_url_ now t :
  get_task db task_id = Some t →
  get_task (fallback db task_id image_url_ now) task_id
  = Some (set_fields (Some "completed") (Some image_url_) None (Some now) t).
Proof. intros H. unfold fallback. by apply update_task_known. Qed.

Lemma callback_keeps_known db now cb task_id t :
  get_task db task_id = Some t →
  ∃ t', get_task (image_generation_callback db now cb).1 task_id = Some t'.
Proof.
  intros H. rewrite callback_store.
  destruct (decide (task_id = cb_task_id cb)) as [->|Hne].
  - erewrite update_task_known by done. eauto.
  - rewrite update_task_other by done. eauto.
Qed.

Lemma post_keeps_known db tr payload task_id t :
  get_task db task_id = Some t →
  ∃ t', get_task (post db tr payload).1 task_id = Some t'.
Proof.
  intros H. destruct tr as [receipt|[receipt|] e|c]; simpl; eauto.
  - destruct (callback_keeps_known db receipt payload task_id t H) as [t' Ht'].
    destruct (image_generation_callback db receipt payload); eauto.
  - by eapply callback_keeps_known.
Qed.

Lemma call_webhook_failed db task_id image_url_ now_payload now_fallback tr :
  (post db tr (completion_payload task_id image_url_ now_payload)).2 ≠ Response 200 →
  _call_webhook db task_id image_url_ now_payload now_fallback tr
  = let db1 := (post db tr (completion_payload task_id image_url_ now_payload)).1 in
    [db1; fallback db1 task_id image_url_ now_fallback].
Proof.
  unfold _call_webhook.
  destruct (post db tr _) as [db1 [c|[]]]; simpl; try done.
  destruct (c =? 200)%Z eqn:E; [|done].
  apply Z.eqb_eq in E as ->. by intros [].
Qed.

(** C3.  The task is in the Store and its unit of work has succeeded with
    the result reference [image_url_].  Whenever the post of the webhook
    does not come back with status 200 (the connection is refused, the
    request times out, the reply has another status, any other exception),
    the last state [_call_webhook] leaves is the direct write of the
    notifier, and in it the task has status ["completed"], the result
    reference and the completion time read for that write. *)
Theorem webhook_failure_still_completes
    db task_id image_url_ now_payload now_fallback tr t :
  get_task db task_id = Some t →
  (post db tr (completion_payload task_id image_url_ now_payload)).2 ≠ Response 200 →
  ∃ db1 t',
    last (_call_webhook db task_id image_url_ now_payload now_fallback tr)
    = Some (fallback db1 task_id image_url_ now_fallback) ∧
    get_task (fallback db1 task_id image_url_ now_fallback) task_id = Some t' ∧
    status t' = "completed" ∧
    image_url t' = Some image_url_ ∧
    completed_at t' = Some now_fallback.
Proof.
  intros Hknown Hfail.
  rewrite call_webhook_failed by done. simpl.
  destruct (post_keeps_known db tr
              (completion_payload task_id image_url_ now_payload) task_id t Hknown)
    as [t1 Ht1].
  eexists _, _. split; [reflexivity|].
  split; [by apply fallback_known|]. done.
Qed.

(* ===================================================================== *)
(** * The receiver applied twice *)
(* ===================================================================== *)

Lemma callback_reply db now cb :
  (image_generation_callback db now cb).2
  = match get_task db (cb_task_id cb) with Some _ => Http200 | None => Http404 end.
Proof.
  unfold image_generation_callback, update_task.
  destruct (fromisoformat _); by destruct (get_task db (cb_task_id cb)).
Qed.

(** C7, amended.  When the [completed_at] of the body parses as a
    timestamp, processing the same body a second time, at whatever time,
    gives the same reply and leaves the table, hence the row of the task, as
    the first processing left it. *)
Theorem callback_idempotent db cb now1 now2 d :
  fromisoformat (replace_Z (cb_completed_at cb)) = Some d →
  image_generation_callback (image_generation_callback db now1 cb).1 now2 cb
  = image_generation_callback db now1 cb.
Proof.
  intros Hparse.
  apply injective_projections.
  - rewrite !callback_store, Hparse. simpl.
    destruct (get_task db (cb_task_id cb)) as [t|] eqn:E.
    + unfold update_task. rewrite E. simpl.
      rewrite (get_task_write_row _ db _ t (id_set_fields _ _ _ _) E). simpl.
      apply write_row_twice.
    + rewrite (update_task_unknown db) by done. simpl.
      by rewrite update_task_unknown.
  - rewrite !callback_reply, callback_store.
    destruct (get_task db (cb_task_id cb)) as [t|] eqn:E.
    + by rewrite (update_task_known _ _ _ _ _ _ t E).
    + rewrite update_task_unknown by done. simpl. by rewrite E.
Qed.

(* ===================================================================== *)
(** * A second [generate_image] for a known id *)
(* ===================================================================== *)

(** C4, amended.  A call of [generate_image] with a non-empty [task_id]
    that is in the Store leaves the table as it was (no second row, the
    existing row unchanged), starts no worker and leaves the session state
    as it was; it returns the message reporting the existing task and its
    status when a prompt is given or found in the conversation, and the
    missing-prompt message otherwise. *)
Theorem generate_image_existing_task
    db prompt_ task_id ctx session_state uuid now_db now_cache t :
  task_id ≠ "" →
  get_task db task_id = Some t →
  let g := generate_image db prompt_ (Some task_id) ctx session_state
             uuid now_db now_cache in
  gen_db g = db ∧
  gen_worker g = None ∧
  gen_session_state g = session_state ∧
  gen_message g
  = if prompt_resolves prompt_ ctx then TaskExists task_id (status t) else NoPrompt.
Proof.
  intros Hid Hknown. unfold generate_image, prompt_resolves.
  assert (falsy (Some task_id) = false) as Hf.
  { simpl. by apply String.eqb_neq. }
  rewrite Hf. simpl default.
  destruct prompt_ as [p|]; simpl falsy.
  - destruct (String.eqb p "") eqn:Ep; simpl.
    + destruct (extracted_prompt ctx) as [q|]; simpl; [|done].
      destruct (String.eqb q ""); simpl; [done|].
      by rewrite Hknown.
    + rewrite Ep. by rewrite Hknown.
  - simpl. destruct (extracted_prompt ctx) as [q|]; simpl; [|done].
    destruct (String.eqb q ""); simpl; [done|].
    by rewrite Hknown.
Qed.

(* ===================================================================== *)
(** * [completed_at] and the status *)
(* ===================================================================== *)

Lemma apply_op_completed db o :
  (∀ t, t ∈ db → status t = "completed" → has_completed_at t = true) →
  ∀ t, t ∈ apply_op db o → status t = "completed" → has_completed_at t = true.
Proof.
  intros Hdb t. destruct o as [tid p s r now|tid|tid msg|tid u now|cb now]; simpl.
  - unfold create_task. destruct (get_task db tid); [by auto|].
    rewrite elem_of_app, list_elem_of_singleton.
    intros [?| ->]; [by auto|]. discriminate.
  - intros H. apply elem_of_update_task in H as [?|(t0 & ? & ->)]; [by auto|].
    discriminate.
  - intros H. apply elem_of_update_task in H as [?|(t0 & ? & ->)]; [by auto|].
    discriminate.
  - unfold fallback. intros H.
    apply elem_of_update_task in H as [?|(t0 & ? & ->)]; by auto.
  - rewrite callback_store. intros H.
    apply elem_of_update_task in H as [?|(t0 & ? & ->)]; by auto.
Qed.

Lemma apply_op_in_order db o :
  in_order db o = true →
  (∀ t, t ∈ db → has_completed_at t = true → terminal (status t) = true) →
  ∀ t, t ∈ apply_op db o → has_completed_at t = true → terminal (status t) = true.
Proof.
  intros Ho Hdb t. destruct o as [tid p s r now|tid|tid msg|tid u now|cb now]; simpl.
  - unfold create_task. destruct (get_task db tid); [by auto|].
    rewrite elem_of_app, list_elem_of_singleton.
    intros [?| ->]; [by auto|]. discriminate.
  - intros H. apply elem_of_update_task in H as [?|(t0 & Ht0 & ->)]; [by auto|].
    simpl in Ho. rewrite Ht0 in Ho.
    unfold has_completed_at in *. simpl. destruct (completed_at t0); done.
  - intros H. apply elem_of_update_task in H as [?|(t0 & ? & ->)]; by auto.
  - unfold fallback. intros H.
    apply elem_of_update_task in H as [?|(t0 & ? & ->)]; by auto.
  - rewrite callback_store. intros H.
    apply elem_of_update_task in H as [?|(t0 & ? & ->)]; by auto.
Qed.

Lemma run_completed ops db :
  (∀ x, x ∈ db → status x = "completed" → has_completed_at x = true) →
  ∀ x, x ∈ run db ops → status x = "completed" → has_completed_at x = true.
Proof.
  unfold run. revert db.
  induction ops as [|o ops IH]; intros db Hdb; simpl; [done|].
  apply IH. by apply apply_op_completed.
Qed.

Lemma run_in_order ops db :
  all_in_order db ops = true →
  (∀ x, x ∈ db → has_completed_at x = true → terminal (status x) = true) →
  ∀ x, x ∈ run db ops → has_completed_at x = true → terminal (status x) = true.
Proof.
  unfold run. revert db.
  induction ops as [|o ops IH]; intros db Hord Hdb; simpl; [done|].
  simpl in Hord. apply andb_true_iff in Hord as [Ho Hord].
  apply IH; [done|]. by apply apply_op_in_order.
Qed.

(** C1, amended.  After any sequence of operations from the empty Store
    (create, the writes of the runner, the notifier fallback, receiver
    updates), a row whose status is ["completed"] has a [completed_at]; and
    when the writes come in order (every receiver update carries the status
    ["completed"] or ["failed"], the runner moves to ["processing"] only a row
    without [completed_at]), a row that has a [completed_at] has the status
    ["completed"] or ["failed"]. *)
Theorem completed_at_and_status ops t :
  t ∈ run [] ops →
  (status t = "completed" → has_completed_at t = true) ∧
  (all_in_order [] ops = true → has_completed_at t = true → terminal (status t) = true).
Proof.
  intros Ht. split.
  - apply (run_completed ops []); [|done]. intros x Hx. by apply elem_of_nil in Hx.
  - intros Hord. apply (run_in_order ops []); [done| |done].
    intros x Hx. by apply elem_of_nil in Hx.
Qed.

(* ===================================================================== *)
(** * The sequence of status values *)
(* ===================================================================== *)

Lemma status_after_update db task_id s iu em ca t :
  get_task db task_id = Some t →
  status <$> get_task (update_task db task_id (Some s) iu em ca).1 task_id = Some s.
Proof. intros H. by rewrite (update_task_known _ _ _ _ _ _ t H). Qed.

Lemma status_after_fallback db task_id u now t :
  get_task db task_id = Some t →
  status <$> get_task (fallback db task_id u now) task_id = Some "completed".
Proof. intros H. unfold fallback. by eapply status_after_update. Qed.

Lemma status_after_completion db task_id u now receipt t :
  get_task db task_id = Some t →
  status <$> get_task
    (image_generation_callback db receipt (completion_payload task_id u now)).1 task_id
  = Some "completed".
Proof. intros H. rewrite callback_store. simpl. by eapply status_after_update. Qed.

Lemma completion_reply db task_id u now receipt t :
  get_task db task_id = Some t →
  (image_generation_callback db receipt (completion_payload task_id u now)).2 = Http200.
Proof. intros H. rewrite callback_reply. simpl. by rewrite H. Qed.

Lemma fmap_Some_known {A B} (f : A → B) (o : option A) b :
  f <$> o = Some b → ∃ a, o = Some a.
Proof. destruct o; [eauto|done]. Qed.

(** The values a worker leaves behind, state by state. *)
Lemma worker_observed db task_id w now_payload now_fallback tr t :
  get_task db task_id = Some t →
  status t = "pending" →
  let seen :=
    observed task_id
      (db :: _async_generate_image db task_id w now_payload now_fallback tr) in
  seen = ["pending"; "processing"; "failed"] ∨
  seen = ["pending"; "processing"; "processing"] ∨
  seen = ["pending"; "processing"; "completed"] ∨
  seen = ["pending"; "processing"; "processing"; "completed"] ∨
  seen = ["pending"; "processing"; "completed"; "completed"].
Proof.
  intros Hknown Hpending. unfold _async_generate_image. rewrite Hknown.
  set (db1 := (update_task db task_id (Some "processing") None None None).1).
  assert (status <$> get_task db1 task_id = Some "processing") as H1
    by by eapply status_after_update.
  destruct (fmap_Some_known _ _ _ H1) as [t1 Ht1].
  unfold observed. simpl omap. rewrite Hknown. simpl. rewrite Hpending.
  destruct w as [|msg].
  - set (u := ("https://example.com/generated-images/" ++ task_id ++ ".png")%string).
    unfold _call_webhook.
    destruct tr as [receipt|[receipt|] e|c]; simpl post.
    + pose proof (status_after_completion db1 task_id u now_payload receipt t1 Ht1) as H2.
      pose proof (completion_reply db1 task_id u now_payload receipt t1 Ht1) as H3.
      destruct (image_generation_callback db1 receipt _) as [db2 r].
      simpl in H2, H3. subst r. simpl. rewrite H1, H2. simpl. auto.
    + pose proof (status_after_completion db1 task_id u now_payload receipt t1 Ht1) as H2.
      destruct (fmap_Some_known _ _ _ H2) as [t2 Ht2].
      pose proof (status_after_fallback _ task_id u now_fallback t2 Ht2) as H3.
      destruct e; simpl; rewrite H1, H2, H3; simpl; auto 10.
    + pose proof (status_after_fallback _ task_id u now_fallback t1 Ht1) as H3.
      destruct e; simpl; rewrite H1, H3; simpl; auto 10.
    + pose proof (status_after_fallback _ task_id u now_fallback t1 Ht1) as H3.
      simpl. destruct (c =? 200)%Z; simpl; rewrite ?H1, ?H3; simpl; auto 10.
  - simpl. rewrite H1. simpl.
    rewrite (update_task_known _ _ _ _ _ _ t1 Ht1). simpl. auto.
Qed.

(** C2, amended.  For a task that [generate_image] has just created
    (status ["pending"]), the status values its worker leaves in the Store,
    from the start of the runner through the failure write or through the
    completion (applied by the endpoint from the payload of the notifier, by
    the fallback, or by both), follow the lifecycle
    pending -> processing -> completed or failed, whatever the unit of work
    and the delivery do. *)
Theorem worker_follows_lifecycle db task_id w now_payload now_fallback tr t :
  get_task db task_id = Some t →
  status t = "pending" →
  follows_lifecycle
    (observed task_id
       (db :: _async_generate_image db task_id w now_payload now_fallback tr)).
Proof.
  intros Hknown Hpending.
  destruct (worker_observed db task_id w now_payload now_fallback tr t Hknown Hpending)
    as [H|[H|[H|[H|H]]]]; unfold follows_lifecycle; rewrite H; simpl.
  - right. reflexivity.
  - left. do 2 apply sublist_skip. apply sublist_cons. apply sublist_nil.
  - left. reflexivity.
  - left. reflexivity.
  - left. reflexivity.
Qed.

(* ===================================================================== *)
(** * Facts about the order of strings and the sort *)
(* ===================================================================== *)

Lemma ascii_compare_lt_trans a b c :
  Ascii.compare a b = Lt → Ascii.compare b c = Lt → Ascii.compare a c = Lt.
Proof.
  unfold Ascii.compare. rewrite !N.compare_lt_iff. lia.
Qed.

Lemma string_compare_lt_trans x y z :
  String.compare x y = Lt → String.compare y z = Lt → String.compare x z = Lt.
Proof.
  revert y z. induction x as [|a x IH]; intros [|b y] [|c z]; simpl; try done.
  destruct (Ascii.compare a b) eqn:Eab; try done.
  - apply Ascii.compare_eq_iff in Eab as ->.
    destruct (Ascii.compare b c); try done. apply IH.
  - intros _. destruct (Ascii.compare b c) eqn:Ebc; try done.
    + apply Ascii.compare_eq_iff in Ebc as <-. by rewrite Eab.
    + by rewrite (ascii_compare_lt_trans a b c).
Qed.

Lemma string_compare_refl x : String.compare x x = Eq.
Proof.
  induction x as [|a x IH]; simpl; [done|].
  unfold Ascii.compare. by rewrite N.compare_refl.
Qed.

Lemma string_ltb_asym x y : String.ltb x y = true → String.ltb y x = false.
Proof.
  unfold String.ltb. rewrite (String.compare_antisym y x).
  by destruct (String.compare x y).
Qed.

Lemma string_ltb_irrefl x : String.ltb x x = false.
Proof. unfold String.ltb. by rewrite string_compare_refl. Qed.

(** [x >= y] and [y >= z] give [x >= z]. *)
Lemma string_ltb_false_trans x y z :
  String.ltb x y = false → String.ltb y z = false → String.ltb x z = false.
Proof.
  unfold String.ltb. intros Hxy Hyz.
  destruct (String.compare x z) eqn:Exz; try done. exfalso.
  destruct (String.compare x y) eqn:Exy; try done.
  - apply String.compare_eq_iff in Exy as ->. by rewrite Exz in Hyz.
  - destruct (String.compare y z) eqn:Eyz; try done.
    + apply String.compare_eq_iff in Eyz as ->. congruence.
    + assert (String.compare z y = Lt) as Hzy.
      { rewrite String.compare_antisym, Eyz. done. }
      assert (String.compare y x = Lt) as Hyx.
      { rewrite String.compare_antisym, Exy. done. }
      pose proof (string_compare_lt_trans _ _ _ Hzy Hyx) as Hzx.
      rewrite String.compare_antisym, Exz in Hzx. done.
Qed.

Section SortFacts.
Context {A : Type} (below : A → A → bool).

Lemma insert_desc_perm x l : insert_desc below x l ≡ₚ x :: l.
Proof.
  induction l as [|y l IH]; simpl; [done|].
  destruct (below x y); [|done].
  rewrite IH. apply Permutation_swap.
Qed.

Lemma sort_desc_perm l : sort_desc below l ≡ₚ l.
Proof.
  induction l as [|x l IH]; simpl; [done|].
  by rewrite insert_desc_perm, IH.
Qed.

Lemma length_sort_desc l : length (sort_desc below l) = length l.
Proof. apply Permutation_length, sort_desc_perm. Qed.

Lemma elem_of_sort_desc x l : x ∈ sort_desc below l ↔ x ∈ l.
Proof. by rewrite sort_desc_perm. Qed.

(** The sort is stable: among elements none of which is below another, the
    original order is kept. *)
Lemma insert_desc_stable (p : A → bool) x l :
  (∀ y, p x = true → y ∈ l → p y = true → below x y = false) →
  List.filter p (insert_desc below x l) = List.filter p (x :: l).
Proof.
  induction l as [|y l IH]; intros Hp; simpl; [done|].
  destruct (below x y) eqn:E; [|done]. simpl.
  rewrite IH.
  - simpl. destruct (p x) eqn:Ex; [|done].
    destruct (p y) eqn:Ey; [|done].
    rewrite Hp in E; [done|done|apply list_elem_of_here|done].
  - intros z ? Hz ?. apply Hp; [done| |done]. by apply list_elem_of_further.
Qed.

Lemma sort_desc_stable (p : A → bool) l :
  (∀ x y, x ∈ l → y ∈ l → p x = true → p y = true → below x y = false) →
  List.filter p (sort_desc below l) = List.filter p l.
Proof.
  induction l as [|x l IH]; intros Hp; simpl; [done|].
  rewrite insert_desc_stable.
  - simpl. rewrite IH; [done|].
    intros a b Ha Hb. apply Hp; by apply list_elem_of_further.
  - intros y ? Hy ?. apply Hp; [apply list_elem_of_here| |done|done].
    apply list_elem_of_further. by apply elem_of_sort_desc.
Qed.

Context (P : A → Prop).
Hypothesis below_asym : ∀ x y, P x → P y → below x y = true → below y x = false.
Hypothesis below_false_trans :
  ∀ x y z, P x → P y → P z →
    below x y = false → below y z = false → below x z = false.

Lemma insert_desc_descending x l :
  P x → Forall P l → descending below l → descending below (insert_desc below x l).
Proof.
  unfold descending. intros Hx Hl Hs.
  induction Hs as [|y l Hs IH Hy]; simpl.
  - repeat constructor.
  - apply Forall_cons in Hl as [HPy Hl].
    destruct (below x y) eqn:E.
    + constructor; [by apply IH|].
      rewrite insert_desc_perm. constructor; [by apply below_asym|done].
    + constructor; [by constructor|].
      constructor; [done|].
      rewrite Forall_forall in Hy, Hl |- *. intros z Hz.
      apply (below_false_trans x y z); auto.
Qed.

Lemma sort_desc_descending l :
  Forall P l → descending below (sort_desc below l).
Proof.
  induction l as [|x l IH]; intros Hl.
  - constructor.
  - apply Forall_cons in Hl as [Hx Hl]. simpl.
    apply insert_desc_descending; [done| |by apply IH].
    rewrite Forall_forall in Hl |- *. intros y Hy.
    apply Hl. by apply elem_of_sort_desc.
Qed.
End SortFacts.

(* ===================================================================== *)
(** * The list query *)
(* ===================================================================== *)

Lemma key_below_asym a b : key_below a b = true → key_below b a = false.
Proof. destruct a, b; simpl; try done. apply string_ltb_asym. Qed.

Lemma key_below_false_trans a b c :
  key_below a b = false → key_below b c = false → key_below a c = false.
Proof. destruct a, b, c; simpl; try done. apply string_ltb_false_trans. Qed.

Lemma length_page {A} (limit : Z) (l : list A) :
  (0 ≤ limit)%Z → (length (page limit 0 l) ≤ Z.to_nat limit)%nat.
Proof.
  intros H. unfold page. simpl. rewrite drop_0.
  destruct (limit <? 0)%Z eqn:E; [lia|].
  rewrite length_take. lia.
Qed.

Lemma page_sublist {A} (limit offset : Z) (l : list A) :
  page limit offset l `sublist_of` l.
Proof.
  unfold page. destruct (limit <? 0)%Z.
  - apply sublist_drop.
  - etrans; [apply sublist_take|apply sublist_drop].
Qed.

Lemma descending_sublist {A} (below : A → A → bool) (l k : list A) :
  l `sublist_of` k → descending below k → descending below l.
Proof.
  unfold descending. intros Hsub. induction Hsub as [|x l k Hsub IH|x l k Hsub IH].
  - done.
  - rewrite !StronglySorted_cons. intros [Hx Hk]. split; [|by apply IH].
    rewrite Forall_forall in Hx |- *. intros y Hy. apply Hx.
    by eapply elem_of_sublist.
  - rewrite StronglySorted_cons. intros [_ Hk]. by apply IH.
Qed.

Lemma filter_on_spec {A} (arg : option string) (col : A → option string) (t : A) :
  filter_on arg col t = true ↔ (∀ s, arg = Some s → s ≠ "" → col t = Some s).
Proof.
  unfold filter_on. destruct arg as [s|]; [|by split].
  destruct (String.eqb_spec s "") as [->|Hs].
  - split; [|done]. by intros _ s [= <-].
  - destruct (col t) as [c|].
    + rewrite String.eqb_eq. split.
      * by intros -> s' [= <-].
      * intros H. specialize (H s eq_refl Hs). congruence.
    + split; [done|]. intros H. by specialize (H s eq_refl Hs).
Qed.

Lemma matches_spec status_ session_id_ run_id_ t :
  matches status_ session_id_ run_id_ t = true ↔
  satisfies status_ session_id_ run_id_ t.
Proof.
  unfold matches, satisfies. rewrite !andb_true_iff, !filter_on_spec.
  split; intros [[H1 H2] H3] || intros (H1 & H2 & H3); repeat split; try done.
  - intros s Hs Hne. specialize (H1 s Hs Hne). congruence.
  - intros s Hs Hne. by rewrite (H1 s Hs Hne).
Qed.

Lemma fits_int64_spec z : fits_int64 z = true ↔ (- 2 ^ 63 ≤ z < 2 ^ 63)%Z.
Proof. unfold fits_int64. rewrite andb_true_iff, Z.leb_le, Z.ltb_lt. done. Qed.

Lemma list_tasks_in_range db status_ session_id_ run_id_ limit offset :
  fits_int64 limit = true → fits_int64 offset = true →
  list_tasks db status_ session_id_ run_id_ limit offset
  = Ok (length (List.filter (matches status_ session_id_ run_id_) db),
        page limit offset
          (sort_desc row_below (List.filter (matches status_ session_id_ run_id_) db))).
Proof. intros Hl Ho. unfold list_tasks. by rewrite Hl, Ho. Qed.

Lemma list_tasks_out_of_range db status_ session_id_ run_id_ limit offset :
  fits_int64 limit && fits_int64 offset = false →
  list_tasks db status_ session_id_ run_id_ limit offset = Raise OverflowError.
Proof. intros H. unfold list_tasks. by rewrite H. Qed.

(** C9, amended.  For a limit between 1 and 1000 and offset 0, [list_tasks]
    (and so the endpoint, which returns the same rows as dictionaries) gives
    at most [limit] rows; they are matching rows of the table, in descending
    order of [created_at]; and the total is the number of all rows that match
    the filters, the same for every limit and every offset that fit in 64
    bits.  With a limit or an offset beyond, the query raises
    [OverflowError] and no total is returned. *)
Theorem list_tasks_first_page db status_ session_id_ run_id_ limit :
  (1 ≤ limit ≤ 1000)%Z →
  ∃ total tasks,
    list_tasks db status_ session_id_ run_id_ limit 0 = Ok (total, tasks) ∧
    api_list_tasks db status_ session_id_ run_id_ limit 0
    = Ok (total, map task_to_dict tasks) ∧
    (length tasks ≤ Z.to_nat limit)%nat ∧
    descending row_below tasks ∧
    (∀ t, t ∈ tasks → t ∈ db ∧ satisfies status_ session_id_ run_id_ t) ∧
    total = length (List.filter (matches status_ session_id_ run_id_) db) ∧
    (∀ t, matches status_ session_id_ run_id_ t = true ↔
          satisfies status_ session_id_ run_id_ t) ∧
    (∀ limit' offset',
       (- 2 ^ 63 ≤ limit' < 2 ^ 63)%Z → (- 2 ^ 63 ≤ offset' < 2 ^ 63)%Z →
       ∃ tasks',
         list_tasks db status_ session_id_ run_id_ limit' offset' = Ok (total, tasks')) ∧
    (∀ limit' offset',
       ¬ ((- 2 ^ 63 ≤ limit' < 2 ^ 63)%Z ∧ (- 2 ^ 63 ≤ offset' < 2 ^ 63)%Z) →
       list_tasks db status_ session_id_ run_id_ limit' offset' = Raise OverflowError).
Proof.
  intros Hlimit.
  set (query := List.filter (matches status_ session_id_ run_id_) db).
  exists (length query), (page limit 0 (sort_desc row_below query)).
  assert (descending row_below (sort_desc row_below query)) as Hsorted.
  { apply (sort_desc_descending row_below (fun _ => True)).
    - intros x y _ _. apply key_below_asym.
    - intros x y z _ _ _. apply key_below_false_trans.
    - by apply Forall_forall. }
  assert (list_tasks db status_ session_id_ run_id_ limit 0
          = Ok (length query, page limit 0 (sort_desc row_below query))) as Hlist.
  { apply list_tasks_in_range; apply fits_int64_spec; lia. }
  split; [done|]. split.
  { unfold api_list_tasks. rewrite Hlist.
    assert (((1 <=? limit) && (limit <=? 1000) && (0 <=? 0))%Z = true) as ->; [|done].
    rewrite !andb_true_iff, !Z.leb_le. lia. }
  split; [apply length_page; lia|].
  split; [by eapply descending_sublist; [apply page_sublist|]|].
  split.
  { intros t Ht.
    eapply elem_of_sublist in Ht; [|apply page_sublist].
    apply elem_of_sort_desc in Ht. unfold query in Ht.
    apply list_elem_of_In, filter_In in Ht as [Hin Hm].
    split; [by apply list_elem_of_In|by apply matches_spec]. }
  split; [done|]. split; [apply matches_spec|]. split.
  - intros limit' offset' Hl Ho. eexists.
    apply list_tasks_in_range; by apply fits_int64_spec.
  - intros limit' offset' Hout. apply list_tasks_out_of_range.
    apply not_true_is_false. rewrite andb_true_iff, !fits_int64_spec. done.
Qed.

(* ===================================================================== *)
(** * The cache: merge by [task_id] *)
(* ===================================================================== *)

(** [{**task, **task_info}], key by key. *)
Lemma merge_lookup (task_info task : entry) (k : string) :
  (task_info ∪ task) !! k
  = match task_info !! k with Some v => Some v | None => task !! k end.
Proof.
  rewrite lookup_union. destruct (task_info !! k), (task !! k); done.
Qed.

Lemma upsert_append (tasks : list entry) (snapshot : entry) :
  (∀ e, e ∈ tasks → py_get e "task_id" ≠ py_get snapshot "task_id") →
  upsert tasks snapshot = tasks ++ [snapshot].
Proof.
  induction tasks as [|task tasks IH]; intros H; simpl; [done|].
  destruct (decide _) as [Heq|_].
  - exfalso. by apply (H task); [apply list_elem_of_here|].
  - rewrite IH; [done|]. intros e He. apply H. by apply list_elem_of_further.
Qed.

Lemma upsert_first_match (tasks : list entry) (snapshot : entry) i prior :
  tasks !! i = Some prior →
  py_get prior "task_id" = py_get snapshot "task_id" →
  (∀ j e, (j < i)%nat → tasks !! j = Some e →
          py_get e "task_id" ≠ py_get snapshot "task_id") →
  upsert tasks snapshot = <[i := snapshot ∪ prior]> tasks.
Proof.
  revert i. induction tasks as [|task tasks IH]; intros i Hi Hsame Hfirst; [done|].
  simpl. destruct i as [|i]; simpl in *.
  - injection Hi as ->. by rewrite decide_True.
  - rewrite decide_False.
    + f_equal. apply IH; [done|done|].
      intros j e Hj He. apply (Hfirst (S j)); [lia|done].
    + apply (Hfirst 0%nat); [lia|done].
Qed.

(** C6.  [_update_task_in_session_state] merges by [task_id].  When an
    entry of the cache has the [task_id] of the snapshot, the first such
    entry is replaced, in place, by a dictionary in which every field present
    in the snapshot has the value of the snapshot and every field absent from
    it keeps the prior value, and nothing else changes; when no entry has
    that [task_id], the snapshot is appended as a new entry. *)
Theorem update_merges_by_task_id (s : SessionState) (snapshot : entry) :
  ∃ tasks',
    _update_task_in_session_state (Some s) snapshot = Some (set_tasks s tasks') ∧
    (∀ i prior,
       default [] (image_generation_tasks s) !! i = Some prior →
       py_get prior "task_id" = py_get snapshot "task_id" →
       (∀ j e, (j < i)%nat → default [] (image_generation_tasks s) !! j = Some e →
               py_get e "task_id" ≠ py_get snapshot "task_id") →
       ∃ merged,
         tasks' = <[i := merged]> (default [] (image_generation_tasks s)) ∧
         ∀ k, merged !! k
              = match snapshot !! k with Some v => Some v | None => prior !! k end) ∧
    ((∀ e, e ∈ default [] (image_generation_tasks s) →
           py_get e "task_id" ≠ py_get snapshot "task_id") →
     tasks' = default [] (image_generation_tasks s) ++ [snapshot]).
Proof.
  eexists. split; [reflexivity|]. split.
  - intros i prior Hi Hsame Hfirst. exists (snapshot ∪ prior).
    split; [by apply upsert_first_match|]. intros k. apply merge_lookup.
  - apply upsert_append.
Qed.

(* ===================================================================== *)
(** * The cache: eviction *)
(* ===================================================================== *)

Lemma text_keys_existsb tasks :
  text_keys tasks → existsb (fun t => is_none (sort_key t)) tasks = false.
Proof.
  induction 1 as [|t tasks Ht _ IH]; simpl; [done|]. by rewrite Ht, IH.
Qed.

Lemma sort_by_created_text tasks :
  text_keys tasks → sort_by_created tasks = Ok (sort_desc entry_below tasks).
Proof.
  intros H. unfold sort_by_created.
  by rewrite text_keys_existsb, andb_false_r.
Qed.

Lemma entry_below_asym a b : entry_below a b = true → entry_below b a = false.
Proof.
  unfold entry_below. destruct (sort_key a), (sort_key b); try done.
  apply string_ltb_asym.
Qed.

Lemma entry_below_false_trans a b c :
  is_none (sort_key b) = false →
  entry_below a b = false → entry_below b c = false → entry_below a c = false.
Proof.
  unfold entry_below.
  destruct (sort_key a), (sort_key b), (sort_key c); try done.
  intros _. apply string_ltb_false_trans.
Qed.

Lemma sort_entries_descending tasks :
  text_keys tasks → descending entry_below (sort_desc entry_below tasks).
Proof.
  intros H.
  apply (sort_desc_descending entry_below (fun t => is_none (sort_key t) = false)).
  - intros x y _ _. apply entry_below_asym.
  - intros x y z _ Hy _. by apply entry_below_false_trans.
  - done.
Qed.

Lemma sort_entries_stable (key : pyval) tasks :
  List.filter (fun t => bool_decide (sort_key t = key))
    (sort_desc entry_below tasks)
  = List.filter (fun t => bool_decide (sort_key t = key)) tasks.
Proof.
  apply sort_desc_stable. intros x y _ _ Hx Hy.
  apply bool_decide_eq_true in Hx, Hy. unfold entry_below. rewrite Hx, Hy.
  destruct key; [done|]. apply string_ltb_irrefl.
Qed.

Lemma length_pending_completed tasks :
  (length (pending_of tasks) + length (completed_of tasks))%nat = length tasks.
Proof.
  unfold pending_of, completed_of.
  induction tasks as [|t tasks IH]; simpl; [done|].
  destruct (non_terminal t); simpl; lia.
Qed.

Lemma remaining_slots (n : nat) :
  Z.to_nat (Z.max 0 (Z.of_nat MAX_TASKS_IN_SESSION_STATE - Z.of_nat n))
  = (MAX_TASKS_IN_SESSION_STATE - n)%nat.
Proof. lia. Qed.

(** Above the cap, with keys that can be compared, the clean-up rewrites the
    list. *)
Lemma cleanup_above_cap s tasks :
  image_generation_tasks s = Some tasks →
  (MAX_TASKS_IN_SESSION_STATE < length tasks)%nat →
  text_keys (completed_of tasks) →
  _cleanup_old_tasks (Some s)
  = Ok (Some (set_tasks s
        (pending_of tasks ++
         take (MAX_TASKS_IN_SESSION_STATE - length (pending_of tasks))
           (sort_desc entry_below (completed_of tasks))))).
Proof.
  intros Htasks Hlen Hkeys. unfold _cleanup_old_tasks. rewrite Htasks. simpl default.
  assert ((length tasks <=? MAX_TASKS_IN_SESSION_STATE)%nat = false) as ->.
  { apply Nat.leb_gt. lia. }
  fold (completed_of tasks). fold (pending_of tasks).
  rewrite sort_by_created_text by done.
  by rewrite remaining_slots.
Qed.

Lemma cleanup_within_cap s :
  (length (default [] (image_generation_tasks s)) ≤ MAX_TASKS_IN_SESSION_STATE)%nat →
  _cleanup_old_tasks (Some s) = Ok (Some s).
Proof.
  intros H. unfold _cleanup_old_tasks.
  assert ((length (default [] (image_generation_tasks s))
           <=? MAX_TASKS_IN_SESSION_STATE)%nat = true) as ->; [|done].
  by apply Nat.leb_le.
Qed.

(** C5, amended.  For a cache with more than 20 entries whose
    [created_at], on the terminal entries, are strings or absent (none is
    [None]), eviction keeps every
    non-terminal entry, in the original order, followed by [kept], the first
    terminal entries in the order "most recently created first, ties in the
    original relative order": [kept ++ dropped] is that arrangement of the
    terminal entries and every kept entry is at least as recent as every
    dropped one.  As many terminal entries are kept as fit under 20; with 20
    or more non-terminal entries none is kept; with 5 non-terminal and 30
    terminal entries, 15 are kept and the result has 20 entries. *)
Theorem cleanup_keeps_most_recent s tasks :
  image_generation_tasks s = Some tasks →
  (MAX_TASKS_IN_SESSION_STATE < length tasks)%nat →
  text_keys (completed_of tasks) →
  ∃ kept dropped,
    _cleanup_old_tasks (Some s)
    = Ok (Some (set_tasks s (pending_of tasks ++ kept))) ∧
    kept ++ dropped ≡ₚ completed_of tasks ∧
    descending entry_below (kept ++ dropped) ∧
    (∀ key, List.filter (fun t => bool_decide (sort_key t = key)) (kept ++ dropped)
            = List.filter (fun t => bool_decide (sort_key t = key)) (completed_of tasks)) ∧
    (∀ a b, a ∈ kept → b ∈ dropped → entry_below a b = false) ∧
    length kept = (MAX_TASKS_IN_SESSION_STATE - length (pending_of tasks))%nat ∧
    ((length (pending_of tasks) ≤ MAX_TASKS_IN_SESSION_STATE)%nat →
     length (pending_of tasks ++ kept) = MAX_TASKS_IN_SESSION_STATE) ∧
    ((MAX_TASKS_IN_SESSION_STATE ≤ length (pending_of tasks))%nat → kept = []) ∧
    (length (pending_of tasks) = 5%nat → length (completed_of tasks) = 30%nat →
     length kept = 15%nat ∧ length (pending_of tasks ++ kept) = 20%nat).
Proof.
  intros Htasks Hlen Hkeys.
  set (n := (MAX_TASKS_IN_SESSION_STATE - length (pending_of tasks))%nat).
  set (sorted := sort_desc entry_below (completed_of tasks)).
  pose proof (length_pending_completed tasks) as Hsplit.
  assert (length sorted = length (completed_of tasks)) as Hsorted_len
    by apply length_sort_desc.
  assert (descending entry_below sorted) as Hdesc
    by by apply sort_entries_descending.
  exists (take n sorted), (drop n sorted).
  assert (length (take n sorted) = n) as Hkept.
  { rewrite length_take. unfold n in *. lia. }
  split; [by apply cleanup_above_cap|].
  rewrite take_drop.
  split; [apply sort_desc_perm|].
  split; [done|].
  split; [intros key; apply sort_entries_stable|].
  split.
  { intros a b Ha Hb. unfold descending in Hdesc.
    rewrite <- (take_drop n sorted) in Hdesc.
    by apply (StronglySorted_app_1_elem_of _ _ _ _ _ Hdesc). }
  split; [done|].
  split; [intros ?; rewrite length_app, Hkept; unfold n; lia|].
  split.
  { intros Hfull. apply nil_length_inv. rewrite Hkept. unfold n. lia. }
  intros H5 H30. rewrite length_app, Hkept. unfold n. rewrite H5.
  unfold MAX_TASKS_IN_SESSION_STATE. lia.
Qed.

Lemma text_keys_check tasks :
  forallb (fun t => negb (is_none (sort_key t))) tasks = true → text_keys tasks.
Proof.
  unfold text_keys. rewrite forallb_forall, Forall_forall.
  intros H t Ht. apply negb_true_iff, H. by apply list_elem_of_In.
Qed.

(* ===================================================================== *)
(** * Any other status counts as terminal *)
(* ===================================================================== *)


Lemma elem_of_pending_of t tasks :
  t ∈ pending_of tasks ↔ t ∈ tasks ∧ non_terminal t = true.
Proof. unfold pending_of. by rewrite !list_elem_of_In, filter_In. Qed.

Lemma elem_of_completed_of t tasks :
  t ∈ completed_of tasks ↔ t ∈ tasks ∧ non_terminal t = false.
Proof.
  unfold completed_of. rewrite !list_elem_of_In, filter_In.
  by rewrite negb_true_iff.
Qed.



(* ===================================================================== *)
(** * Reconciliation twice *)
(* ===================================================================== *)

Lemma set_tasks_set_tasks s a b : set_tasks (set_tasks s a) b = set_tasks s b.
Proof. reflexivity. Qed.

Lemma set_tasks_same s tasks :
  image_generation_tasks s = Some tasks → set_tasks s tasks = s.
Proof. destruct s. simpl. by intros ->. Qed.

Lemma task_to_dict_id t : py_get (task_to_dict t) "task_id" = PStr (id t).
Proof. unfold py_get, task_to_dict. by rewrite lookup_insert_eq. Qed.

Lemma text_id_merge row (t : entry) : text_id (task_to_dict row ∪ t) = Some (id row).
Proof.
  unfold text_id, py_get. rewrite merge_lookup.
  unfold task_to_dict. by rewrite lookup_insert_eq.
Qed.

Lemma text_id_py_get (t : entry) x : text_id t = Some x ↔ py_get t "task_id" = PStr x.
Proof.
  unfold text_id. destruct (py_get t "task_id"); split; congruence.
Qed.

Lemma text_id_refresh db x t : text_id (refresh db x t) = text_id t.
Proof.
  unfold refresh. destruct (decide _) as [E|]; [|done].
  destruct (get_task db x) as [row|] eqn:Hrow; [|done].
  rewrite text_id_merge, E. f_equal. by eapply get_task_id.
Qed.

Lemma merge_twice (d t : entry) : d ∪ (d ∪ t) = d ∪ t.
Proof. by rewrite (assoc_L (∪)), (idemp_L (∪)). Qed.

Lemma refresh_absorbed db x t : text_id t = Some x → absorbed db (refresh db x t).
Proof.
  intros Hx. unfold refresh. rewrite decide_True by done.
  destruct (get_task db x) as [row|] eqn:Hrow.
  - intros y row' Hy Hrow'. rewrite text_id_merge in Hy.
    pose proof (get_task_id _ _ _ Hrow) as Hid.
    assert (y = x) as -> by congruence.
    assert (row' = row) as -> by congruence.
    apply merge_twice.
  - intros y row' Hy Hrow'. congruence.
Qed.

Lemma refresh_of_absorbed db x t : absorbed db t → refresh db x t = t.
Proof.
  intros H. unfold refresh. destruct (decide _) as [E|]; [|done].
  destruct (get_task db x) as [row|] eqn:Hrow; [|done]. by apply (H x row).
Qed.

Lemma refresh_other db x t : text_id t ≠ Some x → refresh db x t = t.
Proof. intros H. unfold refresh. by rewrite decide_False. Qed.

(** In a cache keyed by [task_id] that holds the id, the upsert of a row is
    the refresh of each entry. *)
Lemma upsert_map db x row tasks :
  get_task db x = Some row →
  unique_ids tasks →
  Some x ∈ map text_id tasks →
  upsert tasks (task_to_dict row) = map (refresh db x) tasks.
Proof.
  intros Hrow. pose proof (get_task_id _ _ _ Hrow) as Hid.
  unfold unique_ids.
  induction tasks as [|t tasks IH]; intros Huniq Hin; simpl.
  - by apply elem_of_nil in Hin.
  - rewrite task_to_dict_id, Hid.
    destruct (decide (py_get t "task_id" = PStr x)) as [E|E].
    + apply text_id_py_get in E.
      unfold refresh at 1. rewrite decide_True, Hrow by done. f_equal.
      simpl in Huniq. rewrite E in Huniq. apply NoDup_cons in Huniq as [Hnot _].
      symmetry. rewrite <- (map_id tasks) at 2. apply map_ext_in.
      intros u Hu. apply refresh_other. intros Hux. apply Hnot.
      apply list_elem_of_omap. exists u. split; [by apply list_elem_of_In|done].
    + rewrite refresh_other by (by rewrite text_id_py_get).
      f_equal. apply IH.
      * simpl in Huniq. destruct (text_id t); [by apply NoDup_cons in Huniq as [_ ?]|done].
      * simpl in Hin. apply elem_of_cons in Hin as [Hin|Hin]; [|done].
        symmetry in Hin. by apply text_id_py_get in Hin.
Qed.

Lemma sync_step_map db x tasks :
  unique_ids tasks →
  Some x ∈ map text_id tasks →
  sync_step db tasks x = map (refresh db x) tasks.
Proof.
  intros Huniq Hin. unfold sync_step.
  destruct (get_task db x) as [row|] eqn:Hrow; [by apply upsert_map|].
  rewrite <- (map_id tasks) at 1. apply map_ext.
  intros t. unfold refresh. rewrite Hrow. by destruct (decide _).
Qed.

Lemma text_ids_refresh db x tasks :
  map text_id (map (refresh db x) tasks) = map text_id tasks.
Proof.
  rewrite map_map. apply map_ext. intros t. apply text_id_refresh.
Qed.

Lemma omap_text_ids (tasks tasks' : list entry) :
  map text_id tasks' = map text_id tasks →
  omap text_id tasks' = omap text_id tasks.
Proof.
  revert tasks'. induction tasks as [|t tasks IH]; intros [|t' tasks']; simpl; try done.
  intros [= -> H]. specialize (IH _ H). unfold omap in IH. by rewrite IH.
Qed.

(** The loop on the list of entries: every entry goes through the refresh
    for each id, in order. *)
Lemma sync_steps_map db ids tasks :
  unique_ids tasks →
  (∀ x, x ∈ ids → Some x ∈ map text_id tasks) →
  foldl (sync_step db) tasks ids
  = map (fun t => foldl (fun t x => refresh db x t) t ids) tasks.
Proof.
  revert tasks. induction ids as [|x ids IH]; intros tasks Huniq Hin; simpl.
  - by rewrite map_id.
  - rewrite sync_step_map; [|done|apply Hin, list_elem_of_here].
    rewrite IH.
    + by rewrite map_map.
    + unfold unique_ids in *. by rewrite (omap_text_ids _ _ (text_ids_refresh db x tasks)).
    + intros y Hy. rewrite text_ids_refresh. apply Hin. by apply list_elem_of_further.
Qed.

Lemma refreshes_of_absorbed db ids t :
  absorbed db t → foldl (fun t x => refresh db x t) t ids = t.
Proof.
  intros H. induction ids as [|x ids IH]; simpl; [done|].
  by rewrite refresh_of_absorbed.
Qed.

Lemma refreshes_absorbed db ids t x :
  x ∈ ids → text_id t = Some x →
  absorbed db (foldl (fun t x => refresh db x t) t ids).
Proof.
  revert t. induction ids as [|y ids IH]; intros t Hin Hx; simpl.
  - by apply elem_of_nil in Hin.
  - destruct (decide (y = x)) as [->|Hne].
    + rewrite refreshes_of_absorbed; by apply refresh_absorbed.
    + rewrite refresh_other by congruence.
      apply IH; [|done]. apply elem_of_cons in Hin as [?|?]; [congruence|done].
Qed.

Lemma refreshes_other db ids t :
  (∀ x, x ∈ ids → text_id t ≠ Some x) →
  foldl (fun t x => refresh db x t) t ids = t.
Proof.
  induction ids as [|y ids IH]; intros H; simpl; [done|].
  rewrite refresh_other by apply H, list_elem_of_here.
  apply IH. intros x Hx. apply H. by apply list_elem_of_further.
Qed.

Lemma text_id_refreshes db ids t :
  text_id (foldl (fun t x => refresh db x t) t ids) = text_id t.
Proof.
  revert t. induction ids as [|y ids IH]; intros t; simpl; [done|].
  by rewrite IH, text_id_refresh.
Qed.

Lemma elem_of_pending_task_ids x tasks :
  x ∈ pending_task_ids tasks ↔
  ∃ t, t ∈ tasks ∧ non_terminal t = true ∧
       truthy (py_get t "task_id") = true ∧ text_id t = Some x.
Proof.
  unfold pending_task_ids. rewrite list_elem_of_omap.
  split; intros (t & Ht & H); exists t; (split; [done|]).
  - destruct (non_terminal t); [|done].
    destruct (truthy (py_get t "task_id")) eqn:E; [|done]. simpl in H.
    unfold text_id. by destruct (py_get t "task_id").
  - destruct H as (-> & -> & H). simpl.
    unfold text_id in H. by destruct (py_get t "task_id").
Qed.

Lemma pending_ids_present x tasks :
  x ∈ pending_task_ids tasks → Some x ∈ map text_id tasks.
Proof.
  rewrite elem_of_pending_task_ids. intros (t & Ht & _ & _ & Hx).
  rewrite <- Hx. apply list_elem_of_In, in_map. by apply list_elem_of_In.
Qed.

(** The first pass brings every entry it would look up again up to date. *)
Lemma first_pass_settled db tasks :
  unique_ids tasks →
  settled db (foldl (sync_step db) tasks (pending_task_ids tasks)).
Proof.
  intros Huniq.
  rewrite sync_steps_map; [|done|intros x; apply pending_ids_present].
  intros t' Ht' Hnt Htruthy.
  apply list_elem_of_In, in_map_iff in Ht' as (t & <- & Ht).
  apply list_elem_of_In in Ht.
  destruct (text_id t) as [x|] eqn:Hx.
  - destruct (decide (x ∈ pending_task_ids tasks)) as [Hin|Hout].
    + by apply (refreshes_absorbed db _ t x).
    + rewrite refreshes_other in Hnt, Htruthy |- *;
        try (intros y Hy Hyx; rewrite Hx in Hyx; congruence).
      exfalso. apply Hout. apply elem_of_pending_task_ids. by exists t.
  - intros y row Hy. by rewrite text_id_refreshes, Hx in Hy.
Qed.

Lemma same_id_same_entry (tasks : list entry) t u x :
  unique_ids tasks → t ∈ tasks → u ∈ tasks →
  text_id t = Some x → text_id u = Some x → t = u.
Proof.
  unfold unique_ids. induction tasks as [|a tasks IH]; intros Huniq Ht Hu Htx Hux.
  - by apply elem_of_nil in Ht.
  - simpl in Huniq. apply elem_of_cons in Ht, Hu.
    destruct Ht as [->|Ht], Hu as [->|Hu]; [done| | |].
    + rewrite Htx in Huniq. apply NoDup_cons in Huniq as [Hnot _].
      exfalso. apply Hnot, list_elem_of_omap. by exists u.
    + rewrite Hux in Huniq. apply NoDup_cons in Huniq as [Hnot _].
      exfalso. apply Hnot, list_elem_of_omap. by exists t.
    + apply IH; try done.
      destruct (text_id a); [by apply NoDup_cons in Huniq as [_ ?]|done].
Qed.

(** On a settled cache keyed by [task_id] the loop changes nothing. *)
Lemma second_pass_fixed db tasks :
  unique_ids tasks → settled db tasks →
  foldl (sync_step db) tasks (pending_task_ids tasks) = tasks.
Proof.
  intros Huniq Hsettled.
  assert (∀ ids, (∀ x, x ∈ ids → x ∈ pending_task_ids tasks) →
                 foldl (sync_step db) tasks ids = tasks) as H.
  { induction ids as [|x ids IH]; intros Hids; simpl; [done|].
    assert (sync_step db tasks x = tasks) as ->.
    { pose proof (Hids x (list_elem_of_here _ _)) as Hx.
      rewrite sync_step_map; [|done|by apply pending_ids_present].
      rewrite <- (map_id tasks) at 2. apply map_ext_in. intros u Hu.
      apply list_elem_of_In in Hu.
      destruct (decide (text_id u = Some x)) as [Hux|Hux];
        [|by apply refresh_other].
      apply refresh_of_absorbed.
      apply elem_of_pending_task_ids in Hx as (t & Ht & Hnt & Htruthy & Htx).
      assert (u = t) as -> by by eapply same_id_same_entry.
      by apply Hsettled. }
    apply IH. intros y Hy. apply Hids. by apply list_elem_of_further. }
  by apply H.
Qed.

Lemma sync_loop_state db ids s tasks c :
  image_generation_tasks s = Some tasks →
  (sync_loop db ids (Some s) c).1
  = Some (set_tasks s (foldl (sync_step db) tasks ids)).
Proof.
  revert s tasks c. induction ids as [|x ids IH]; intros s tasks c Htasks; simpl.
  - by rewrite set_tasks_same.
  - unfold sync_step at 2. destruct (get_task db x) as [row|].
    + rewrite Htasks. simpl.
      erewrite IH by reflexivity. by rewrite set_tasks_set_tasks.
    + by apply IH.
Qed.

Lemma unique_ids_sync_steps db ids tasks :
  unique_ids tasks →
  (∀ x, x ∈ ids → Some x ∈ map text_id tasks) →
  unique_ids (foldl (sync_step db) tasks ids).
Proof.
  intros Huniq Hin. rewrite sync_steps_map by done.
  unfold unique_ids in *.
  erewrite omap_text_ids; [done|].
  rewrite map_map. apply map_ext. intros t. apply text_id_refreshes.
Qed.

Lemma pending_completed_perm tasks : pending_of tasks ++ completed_of tasks ≡ₚ tasks.
Proof.
  unfold pending_of, completed_of.
  induction tasks as [|t tasks IH]; simpl; [done|].
  destruct (non_terminal t); simpl.
  - by rewrite IH.
  - by rewrite <- Permutation_middle, IH.
Qed.

Lemma omap_sublist {A B} (f : A → option B) (l k : list A) :
  l `sublist_of` k → omap f l `sublist_of` omap f k.
Proof.
  induction 1 as [|x l k _ IH|x l k _ IH]; simpl.
  - done.
  - destruct (f x); [by apply sublist_skip|done].
  - destruct (f x); [by apply sublist_cons|done].
Qed.

Lemma pending_of_pending tasks : pending_of (pending_of tasks) = pending_of tasks.
Proof.
  unfold pending_of. induction tasks as [|t tasks IH]; simpl; [done|].
  destruct (non_terminal t) eqn:E; simpl; [|done]. by rewrite E, IH.
Qed.

Lemma completed_of_pending tasks : completed_of (pending_of tasks) = [].
Proof.
  unfold pending_of, completed_of. induction tasks as [|t tasks IH]; simpl; [done|].
  destruct (non_terminal t) eqn:E; simpl; [|done]. by rewrite E.
Qed.

(** The two outcomes of the clean-up: the state is left as it is (under the
    cap, or the sort raises), or the list is rewritten. *)
Lemma after_cleanup_cases s tasks :
  image_generation_tasks s = Some tasks →
  after_cleanup (Some s) = Some s ∨
  ((MAX_TASKS_IN_SESSION_STATE < length tasks)%nat ∧
   after_cleanup (Some s)
   = Some (set_tasks s
       (pending_of tasks ++
        take (MAX_TASKS_IN_SESSION_STATE - length (pending_of tasks))
          (sort_desc entry_below (completed_of tasks))))).
Proof.
  intros Htasks. unfold after_cleanup, _cleanup_old_tasks. rewrite Htasks. simpl default.
  destruct (length tasks <=? MAX_TASKS_IN_SESSION_STATE)%nat eqn:E; [by left|].
  apply Nat.leb_gt in E.
  fold (completed_of tasks). fold (pending_of tasks).
  unfold sort_by_created.
  destruct (_ && _); [by left|]. right. split; [lia|].
  by rewrite remaining_slots.
Qed.

Lemma after_cleanup_spec s tasks :
  image_generation_tasks s = Some tasks →
  ∃ tasks',
    after_cleanup (Some s) = Some (set_tasks s tasks') ∧
    (∀ t, t ∈ tasks' → t ∈ tasks) ∧
    (unique_ids tasks → unique_ids tasks') ∧
    after_cleanup (Some (set_tasks s tasks')) = Some (set_tasks s tasks').
Proof.
  intros Htasks.
  destruct (after_cleanup_cases s tasks Htasks) as [Hsame|[Hlen Hcut]].
  { exists tasks. rewrite (set_tasks_same s tasks Htasks). done. }
  set (n := (MAX_TASKS_IN_SESSION_STATE - length (pending_of tasks))%nat) in *.
  set (sorted := sort_desc entry_below (completed_of tasks)) in *.
  exists (pending_of tasks ++ take n sorted).
  assert (pending_of tasks ++ take n sorted `sublist_of` pending_of tasks ++ sorted)
    as Hsub by (apply sublist_app; [done|apply sublist_take]).
  assert (pending_of tasks ++ sorted ≡ₚ tasks) as Hperm.
  { unfold sorted. by rewrite sort_desc_perm, pending_completed_perm. }
  split; [done|]. split; [|split].
  - intros t Ht. rewrite <- Hperm. by eapply elem_of_sublist.
  - unfold unique_ids. intros Huniq.
    eapply sublist_NoDup; [|by apply omap_sublist].
    by rewrite Hperm.
  - set (s' := set_tasks s (pending_of tasks ++ take n sorted)).
    destruct (after_cleanup_cases s' _ eq_refl) as [Hsame'|[Hlen' Hcut']]; [done|].
    rewrite Hcut'. rewrite length_app, length_take in Hlen'.
    assert (n = 0)%nat as Hn by (unfold n in *; lia).
    rewrite Hn, take_0, app_nil_r.
    rewrite pending_of_pending, completed_of_pending. simpl.
    rewrite take_nil, app_nil_r. unfold s'.
    by rewrite Hn, take_0, app_nil_r.
Qed.

Lemma sync_state db s :
  (sync_pending_tasks db (Some s)).2
  = match pending_task_ids (default [] (image_generation_tasks s)) with
    | [] => Some s
    | ids => after_cleanup (sync_loop db ids (Some s) (mkCounters 0 0 0)).1
    end.
Proof.
  unfold sync_pending_tasks, after_cleanup, _get_tasks_from_session_state.
  destruct (pending_task_ids _) as [|x ids]; [done|].
  destruct (sync_loop db (x :: ids) (Some s) _) as [ss1 c]. cbn [fst snd].
  by destruct (_cleanup_old_tasks ss1).
Qed.

(** A cache that is keyed by [task_id], settled, and that the clean-up
    leaves alone is a fixed point of [sync_pending_tasks]. *)
Lemma sync_fixed db s tasks :
  image_generation_tasks s = Some tasks →
  unique_ids tasks → settled db tasks →
  after_cleanup (Some s) = Some s →
  (sync_pending_tasks db (Some s)).2 = Some s.
Proof.
  intros Htasks Huniq Hsettled Hclean.
  rewrite sync_state, Htasks. simpl default.
  destruct (pending_task_ids tasks) as [|x ids] eqn:Hids; [done|].
  rewrite (sync_loop_state db _ s tasks) by done.
  rewrite <- Hids, second_pass_fixed by done.
  by rewrite set_tasks_same.
Qed.

(** C8, amended.  For a session cache keyed by [task_id] (no two entries
    carry the same one) and any Store, [sync_pending_tasks] called again on the cache
    the first call left, with the Store unchanged, leaves that cache as it
    is. *)
Theorem sync_twice_same_cache db (session_state : option SessionState) :
  unique_ids (_get_tasks_from_session_state session_state) →
  (sync_pending_tasks db (sync_pending_tasks db session_state).2).2
  = (sync_pending_tasks db session_state).2.
Proof.
  destruct session_state as [s|]; [|done].
  unfold _get_tasks_from_session_state. intros Huniq.
  set (tasks := default [] (image_generation_tasks s)) in *.
  destruct (pending_task_ids tasks) as [|x ids] eqn:Hids.
  { assert ((sync_pending_tasks db (Some s)).2 = Some s) as Hfirst.
    { rewrite sync_state. fold tasks. by rewrite Hids. }
    by rewrite !Hfirst. }
  assert (image_generation_tasks s = Some tasks) as Htasks.
  { unfold tasks in *. destruct (image_generation_tasks s); [done|]. discriminate. }
  set (tasks1 := foldl (sync_step db) tasks (pending_task_ids tasks)).
  assert ((sync_pending_tasks db (Some s)).2
          = after_cleanup (Some (set_tasks s tasks1))) as Hfirst.
  { rewrite sync_state. fold tasks. rewrite Hids.
    rewrite (sync_loop_state db _ s tasks) by done. by rewrite <- Hids. }
  destruct (after_cleanup_spec (set_tasks s tasks1) tasks1 eq_refl)
    as (tasks2 & Hclean & Hsub & Huniq2 & Hfixed).
  rewrite set_tasks_set_tasks in Hclean, Hfixed.
  rewrite Hfirst, Hclean.
  apply (sync_fixed db _ tasks2); [done| | |done].
  - apply Huniq2, unique_ids_sync_steps; [done|].
    intros y. apply pending_ids_present.
  - intros t Ht. apply (first_pass_settled db tasks Huniq). by apply Hsub.
Qed.

(* ===================================================================== *)
(** * The caches the tools produce *)
(* ===================================================================== *)

Lemma dated_apply_op db o : dated db → dated (apply_op db o).
Proof.
  unfold dated. intros Hdb t.
  assert (∀ task_id st iu em ca,
            t ∈ (update_task db task_id st iu em ca).1 → created_at t ≠ None) as Hup.
  { intros task_id st iu em ca H.
    apply elem_of_update_task in H as [?|(t0 & H0 & ->)]; [by apply Hdb|].
    apply get_task_elem in H0. simpl. by apply Hdb. }
  destruct o as [tid p s r now|tid|tid msg|tid u now|cb now]; simpl.
  - unfold create_task. destruct (get_task db tid); [by apply Hdb|].
    rewrite elem_of_app, list_elem_of_singleton.
    intros [?| ->]; [by apply Hdb|simpl; discriminate].
  - apply Hup.
  - apply Hup.
  - apply Hup.
  - rewrite callback_store. apply Hup.
Qed.

Lemma dated_run ops : dated (run [] ops).
Proof.
  unfold run. assert (dated []) as H by (intros t Ht; by apply elem_of_nil in Ht).
  revert H. generalize ([] : Store). induction ops as [|o ops IH]; intros db H; simpl.
  - done.
  - by apply IH, dated_apply_op.
Qed.

Lemma py_get_merge (d t : entry) k :
  py_get t k = py_get d k → py_get (d ∪ t) k = py_get t k.
Proof.
  unfold py_get. rewrite merge_lookup. by destruct (d !! k).
Qed.

Lemma text_id_merge_same (d t : entry) :
  py_get t "task_id" = py_get d "task_id" → text_id (d ∪ t) = text_id t.
Proof. intros H. unfold text_id. by rewrite py_get_merge. Qed.

Lemma text_ids_upsert (tasks : list entry) (d : entry) :
  omap text_id (upsert tasks d) = omap text_id tasks ∨
  (omap text_id (upsert tasks d) = omap text_id tasks ++ omap text_id [d] ∧
   ∀ e, e ∈ tasks → py_get e "task_id" ≠ py_get d "task_id").
Proof.
  induction tasks as [|t tasks IH].
  - right. split; [done|]. intros e He. by apply elem_of_nil in He.
  - cbn [upsert]. destruct (decide _) as [E|E].
    + left. cbn [omap list_omap]. by rewrite text_id_merge_same.
    + destruct IH as [IH|[IH Hno]].
      * left. cbn [omap list_omap] in *. by rewrite IH.
      * right. split.
        -- cbn [omap list_omap] in *. rewrite IH. by destruct (text_id t).
        -- intros e He. apply elem_of_cons in He as [->|He]; [done|by apply Hno].
Qed.

Lemma unique_ids_upsert (tasks : list entry) (d : entry) :
  unique_ids tasks → unique_ids (upsert tasks d).
Proof.
  unfold unique_ids. intros Huniq.
  destruct (text_ids_upsert tasks d) as [->|[-> Hno]]; [done|].
  cbn [omap list_omap]. destruct (text_id d) as [x|] eqn:Hd.
  - apply NoDup_app. split; [done|]. split; [|apply NoDup_singleton].
    intros y Hy Hyx. apply list_elem_of_singleton in Hyx as ->.
    apply list_elem_of_omap in Hy as (e & He & Hex).
    apply (Hno e He). apply text_id_py_get in Hex, Hd. congruence.
  - by rewrite app_nil_r.
Qed.

Lemma sort_key_merge (d t : entry) :
  is_none (sort_key d) = false → is_none (sort_key t) = false →
  is_none (sort_key (d ∪ t)) = false.
Proof.
  unfold sort_key. rewrite merge_lookup. by destruct (d !! "created_at").
Qed.

Lemma text_keys_upsert (tasks : list entry) (d : entry) :
  is_none (sort_key d) = false → text_keys tasks → text_keys (upsert tasks d).
Proof.
  intros Hd. unfold text_keys.
  induction tasks as [|t tasks IH]; intros H; cbn [upsert].
  - by constructor.
  - apply Forall_cons in H as [Ht H].
    destruct (decide _); constructor; auto using sort_key_merge.
Qed.

Lemma sort_key_task_to_dict row :
  created_at row ≠ None → is_none (sort_key (task_to_dict row)) = false.
Proof.
  intros H. unfold sort_key, task_to_dict.
  do 5 (rewrite lookup_insert_ne by done). rewrite lookup_insert_eq.
  by destruct (created_at row).
Qed.

Lemma well_formed_upsert_row db x row tasks :
  dated db → get_task db x = Some row →
  well_formed tasks → well_formed (upsert tasks (task_to_dict row)).
Proof.
  intros Hdb Hrow [Hu Hk]. split; [by apply unique_ids_upsert|].
  apply text_keys_upsert; [|done].
  apply sort_key_task_to_dict, Hdb. by eapply get_task_elem.
Qed.

Lemma tasks_after_update ss d :
  _get_tasks_from_session_state (_update_task_in_session_state ss d)
  = match ss with
    | Some _ => upsert (_get_tasks_from_session_state ss) d
    | None => []
    end.
Proof. by destruct ss. Qed.

Lemma well_formed_after_cleanup ss :
  well_formed (_get_tasks_from_session_state ss) →
  well_formed (_get_tasks_from_session_state (after_cleanup ss)).
Proof.
  destruct ss as [s|]; [|done]. intros [Hu Hk].
  destruct (image_generation_tasks s) as [tasks|] eqn:Htasks.
  - destruct (after_cleanup_spec s tasks Htasks) as (tasks' & -> & Hsub & Huniq & _).
    simpl in *. rewrite Htasks in Hu, Hk. simpl in *. split; [by apply Huniq|].
    unfold text_keys in *. rewrite Forall_forall in Hk |- *. auto.
  - unfold after_cleanup, _cleanup_old_tasks. rewrite Htasks. simpl.
    rewrite Htasks. split; constructor.
Qed.

Lemma well_formed_sync_loop db ids ss c :
  dated db →
  well_formed (_get_tasks_from_session_state ss) →
  well_formed (_get_tasks_from_session_state (sync_loop db ids ss c).1).
Proof.
  intros Hdb. revert ss c. induction ids as [|x ids IH]; intros ss c Hwf; [done|].
  cbn [sync_loop]. destruct (get_task db x) as [row|] eqn:Hrow; [|by apply IH].
  apply IH. rewrite tasks_after_update. destruct ss; [|done].
  by eapply well_formed_upsert_row.
Qed.

(** X15.  From a Store whose rows have a [created_at], the three tools
    ([generate_image], [sync_pending_tasks], [check_task_status]) take a
    well-formed cache (keyed by [task_id], no [created_at] that is [None]) to
    a well-formed cache, whatever their arguments; the absent cache is
    well-formed. *)
Lemma tools_keep_cache_well_formed db ss :
  dated db →
  well_formed (_get_tasks_from_session_state ss) →
  (∀ prompt_ task_id ctx uuid now_db now_cache,
     well_formed (_get_tasks_from_session_state
       (gen_session_state
          (generate_image db prompt_ task_id ctx ss uuid now_db now_cache)))) ∧
  well_formed (_get_tasks_from_session_state (sync_pending_tasks db ss).2) ∧
  (∀ task_id,
     well_formed (_get_tasks_from_session_state (check_task_status db task_id ss).2)).
Proof.
  intros Hdb Hwf. split; [|split].
  - intros prompt_ task_id ctx uuid now_db now_cache. unfold generate_image.
    destruct (if falsy prompt_ then _ else _) as [p|]; [|done].
    destruct (String.eqb p ""); [done|].
    destruct (get_task db _); [done|].
    destruct (create_task _ _ _ _ _ _) as [[db' row]|e]; [|done].
    match goal with |- context [_update_task_in_session_state ?a ?b] =>
      set (ss1 := _update_task_in_session_state a b) end.
    assert (ss ≠ None →
            well_formed (_get_tasks_from_session_state ss1)) as Hwf1.
    { intros Hss. unfold ss1. destruct ss as [s|]; [|done]. simpl default.
      rewrite tasks_after_update. destruct Hwf as [Hu Hk].
      split; [by apply unique_ids_upsert|]. by apply text_keys_upsert. }
    pose proof (well_formed_after_cleanup ss1) as Hclean.
    unfold after_cleanup in Hclean.
    destruct (_cleanup_old_tasks ss1) as [ss2|e]; simpl;
      (destruct ss as [s|]; [by auto|done]).
  - destruct ss as [s|]; [|done].
    rewrite sync_state.
    destruct (pending_task_ids _) as [|x ids]; [done|].
    by apply well_formed_after_cleanup, well_formed_sync_loop.
  - intros task_id. unfold check_task_status.
    destruct (String.eqb task_id ""); [done|].
    destruct (get_task db task_id) as [row|] eqn:Hrow; [|done]. simpl.
    rewrite tasks_after_update. destruct ss; [|done].
    by eapply well_formed_upsert_row.
Qed.

Lemma well_formed_empty : well_formed (_get_tasks_from_session_state None).
Proof. split; constructor. Qed.

(* ===================================================================== *)
(** * Further properties of the Store *)
(* ===================================================================== *)

Lemma get_task_None db task_id :
  get_task db task_id = None ↔ task_id ∉ map id db.
Proof.
  unfold get_task. induction db as [|x db IH]; simpl.
  - split; [intros _ H; by apply elem_of_nil in H|done].
  - rewrite not_elem_of_cons.
    destruct (String.eqb_spec (id x) task_id) as [E|E]; [|by rewrite IH; intuition].
    split; [done|]. by intros [? _].
Qed.

Lemma get_task_app db db' task_id t :
  get_task db task_id = Some t → get_task (db ++ db') task_id = Some t.
Proof.
  unfold get_task. induction db as [|x db IH]; simpl; [done|].
  by destruct (String.eqb (id x) task_id).
Qed.

Lemma get_task_snoc db t task_id :
  get_task db task_id = None →
  get_task (db ++ [t]) task_id = if String.eqb (id t) task_id then Some t else None.
Proof.
  unfold get_task. induction db as [|x db IH]; simpl; [done|].
  by destruct (String.eqb (id x) task_id).
Qed.

Lemma ids_write_row f db task_id :
  (∀ x, id (f x) = id x) → map id (write_row f task_id db) = map id db.
Proof.
  intros Hf. induction db as [|x db IH]; simpl; [done|].
  destruct (String.eqb (id x) task_id); simpl; by rewrite ?Hf, ?IH.
Qed.

Lemma ids_update_task db task_id st iu em ca :
  map id (update_task db task_id st iu em ca).1 = map id db.
Proof.
  unfold update_task. destruct (get_task db task_id); simpl; [|done].
  by apply ids_write_row.
Qed.

(** X1.  Insert and look up: [create_task] with an id that is not in the
    table succeeds; afterwards [get_task] of that id gives the returned row,
    which is pending, carries the prompt, the session and run references and
    the creation time and nothing else; the table has one row more and every
    other id reads as before. *)
Theorem create_task_then_get db task_id p s r now :
  get_task db task_id = None →
  ∃ db' task,
    create_task db task_id p s r now = Ok (db', task) ∧
    get_task db' task_id = Some task ∧
    task = {| id := task_id; prompt := p; status := "pending";
              image_url := None; error_message := None;
              created_at := Some now; completed_at := None;
              session_id := s; run_id := r |} ∧
    length db' = S (length db) ∧
    (∀ other, other ≠ task_id → get_task db' other = get_task db other).
Proof.
  intros Hnew. unfold create_task. rewrite Hnew.
  eexists _, _. split; [reflexivity|]. split; [|split; [reflexivity|split]].
  - rewrite get_task_snoc by done. simpl. by rewrite String.eqb_refl.
  - rewrite length_app. simpl. lia.
  - intros other Hne. destruct (get_task db other) as [t|] eqn:E.
    + by apply get_task_app.
    + rewrite get_task_snoc by done. simpl.
      destruct (String.eqb_spec task_id other); [congruence|done].
Qed.

Lemma ids_apply_op db o :
  NoDup (map id db) → NoDup (map id (apply_op db o)).
Proof.
  intros Hdb. destruct o as [tid p s r now|tid|tid msg|tid u now|cb now]; simpl.
  - unfold create_task. destruct (get_task db tid) eqn:E; [done|].
    rewrite map_app. simpl. apply NoDup_app. split; [done|].
    split; [|apply NoDup_singleton].
    intros x Hx Hx'. apply list_elem_of_singleton in Hx' as ->.
    by apply get_task_None in E.
  - by rewrite ids_update_task.
  - by rewrite ids_update_task.
  - unfold fallback. by rewrite ids_update_task.
  - by rewrite callback_store, ids_update_task.
Qed.

(** X2.  The id is a key: whatever sequence of creates, runner writes,
    fallbacks and callbacks is applied to the empty table, no two rows have
    the same id. *)
Theorem ids_stay_unique ops : NoDup (map id (run [] ops)).
Proof.
  unfold run. assert (NoDup (map id ([] : Store))) as H by constructor.
  revert H. generalize ([] : Store).
  induction ops as [|o ops IH]; intros db H; simpl; [done|].
  by apply IH, ids_apply_op.
Qed.

Lemma apply_op_keeps_row db o task_id t :
  get_task db task_id = Some t →
  ∃ t', get_task (apply_op db o) task_id = Some t' ∧
        id t' = id t ∧ prompt t' = prompt t ∧ created_at t' = created_at t ∧
        session_id t' = session_id t ∧ run_id t' = run_id t.
Proof.
  intros Ht.
  assert (∀ x st iu em ca,
    ∃ t', get_task (update_task db x st iu em ca).1 task_id = Some t' ∧
          id t' = id t ∧ prompt t' = prompt t ∧ created_at t' = created_at t ∧
          session_id t' = session_id t ∧ run_id t' = run_id t) as Hup.
  { intros x st iu em ca. destruct (decide (task_id = x)) as [<-|Hne].
    - rewrite (update_task_known _ _ _ _ _ _ t Ht). by eexists.
    - rewrite update_task_other by done. by exists t. }
  destruct o as [tid p s r now|tid|tid msg|tid u now|cb now]; simpl; try apply Hup.
  - unfold create_task. destruct (get_task db tid); [by exists t|].
    exists t. by rewrite (get_task_app _ _ _ t Ht).
  - rewrite callback_store. apply Hup.
Qed.

(** X3.  Rows are never deleted and their creation data never change: a task
    that is in the table is still there after any further sequence of writes,
    with the same id, prompt, creation time and session and run references. *)
Theorem rows_persist db ops task_id t :
  get_task db task_id = Some t →
  ∃ t', get_task (run db ops) task_id = Some t' ∧
        id t' = id t ∧ prompt t' = prompt t ∧ created_at t' = created_at t ∧
        session_id t' = session_id t ∧ run_id t' = run_id t.
Proof.
  unfold run. revert db t. induction ops as [|o ops IH]; intros db t Ht; simpl.
  - by exists t.
  - destruct (apply_op_keeps_row db o task_id t Ht) as (t1 & Ht1 & E1 & E2 & E3 & E4 & E5).
    destruct (IH _ _ Ht1) as (t2 & Ht2 & F1 & F2 & F3 & F4 & F5).
    exists t2. repeat split; congruence.
Qed.

(** X4.  [update_task] returns what a later [get_task] of the same id
    reads ([None] for an unknown id, and then the table is unchanged); it
    adds and removes no row, and every other id reads as before. *)
Theorem update_task_returns_stored db task_id st iu em ca :
  (update_task db task_id st iu em ca).2
  = get_task (update_task db task_id st iu em ca).1 task_id ∧
  (get_task db task_id = None → (update_task db task_id st iu em ca).1 = db) ∧
  map id (update_task db task_id st iu em ca).1 = map id db ∧
  (∀ other, other ≠ task_id →
     get_task (update_task db task_id st iu em ca).1 other = get_task db other).
Proof.
  split; [|split; [|split]].
  - destruct (get_task db task_id) as [t|] eqn:E.
    + rewrite (update_task_known _ _ _ _ _ _ t E).
      unfold update_task. by rewrite E.
    + rewrite update_task_unknown by done. simpl. by rewrite E.
  - intros E. by rewrite update_task_unknown.
  - apply ids_update_task.
  - intros other Hne. by apply update_task_other.
Qed.

(** X5.  The completion callback replies 404 and leaves the table as it is
    when the task is unknown.  Otherwise it replies 200 and the row of the
    task takes the status and the image url of the body and a completion time
    (the one of the body when it parses, the time of receipt otherwise); the
    error message is replaced only when the body has one; the prompt and the
    creation data stay, and every other task reads as before. *)
Theorem callback_applies_body db now cb :
  match get_task db (cb_task_id cb) with
  | None => image_generation_callback db now cb = (db, Http404)
  | Some t =>
      ∃ db' t',
        image_generation_callback db now cb = (db', Http200) ∧
        get_task db' (cb_task_id cb) = Some t' ∧
        status t' = cb_status cb ∧
        image_url t' = Some (cb_image_url cb) ∧
        error_message t'
        = match cb_error_message cb with Some e => Some e | None => error_message t end ∧
        completed_at t'
        = Some (default now (fromisoformat (replace_Z (cb_completed_at cb)))) ∧
        prompt t' = prompt t ∧ created_at t' = created_at t ∧
        session_id t' = session_id t ∧ run_id t' = run_id t ∧
        (∀ other, other ≠ cb_task_id cb → get_task db' other = get_task db other)
  end.
Proof.
  destruct (get_task db (cb_task_id cb)) as [t|] eqn:E.
  - exists (image_generation_callback db now cb).1, 
      (set_fields (Some (cb_status cb)) (Some (cb_image_url cb)) (cb_error_message cb)
         (Some (default now (fromisoformat (replace_Z (cb_completed_at cb))))) t).
    split.
    { apply injective_projections; [done|]. simpl. by rewrite callback_reply, E. }
    rewrite callback_store. split; [by apply update_task_known|].
    repeat split; try done.
    intros other Hne. by apply update_task_other.
  - apply injective_projections; simpl.
    + rewrite callback_store. by rewrite update_task_unknown.
    + by rewrite callback_reply, E.
Qed.

(** X6.  [get_all_tasks] returns every matching row once, newest first, and
    its total is the number of rows it returns; [list_tasks] reports the same
    total whenever it returns, which it does for every limit and offset that
    fit in 64 bits, and its page is then a part of these rows, in their
    order. *)
Theorem get_all_tasks_complete db status_ session_id_ run_id_ :
  ∃ rows,
    get_all_tasks db status_ session_id_ run_id_ = (length rows, rows) ∧
    rows ≡ₚ List.filter (matches status_ session_id_ run_id_) db ∧
    descending row_below rows ∧
    (∀ t, t ∈ rows ↔ t ∈ db ∧ satisfies status_ session_id_ run_id_ t) ∧
    (∀ limit offset,
       (- 2 ^ 63 ≤ limit < 2 ^ 63)%Z → (- 2 ^ 63 ≤ offset < 2 ^ 63)%Z →
       ∃ tasks,
         list_tasks db status_ session_id_ run_id_ limit offset
         = Ok (length rows, tasks) ∧
         tasks `sublist_of` rows) ∧
    (∀ limit offset total tasks,
       list_tasks db status_ session_id_ run_id_ limit offset = Ok (total, tasks) →
       total = length rows).
Proof.
  exists (sort_desc row_below (List.filter (matches status_ session_id_ run_id_) db)).
  split; [|split; [|split; [|split; [|split]]]].
  - unfold get_all_tasks. by rewrite length_sort_desc.
  - apply sort_desc_perm.
  - apply (sort_desc_descending row_below (fun _ => True)).
    + intros x y _ _. apply key_below_asym.
    + intros x y z _ _ _. apply key_below_false_trans.
    + by apply Forall_forall.
  - intros t. rewrite elem_of_sort_desc, list_elem_of_In, filter_In.
    by rewrite <- list_elem_of_In, matches_spec.
  - intros limit offset Hl Ho. eexists. split.
    + rewrite list_tasks_in_range by by apply fits_int64_spec.
      by rewrite length_sort_desc.
    + apply page_sublist.
  - intros limit offset total tasks. unfold list_tasks.
    destruct (_ && _); [|done]. intros [= <- _]. by rewrite length_sort_desc.
Qed.

(* ===================================================================== *)
(** * Further properties of the runner and the notifier *)
(* ===================================================================== *)

Lemma same_but_refl task_id db : same_but task_id db db.
Proof. by split. Qed.

Lemma same_but_trans task_id db1 db2 db3 :
  same_but task_id db1 db2 → same_but task_id db2 db3 → same_but task_id db1 db3.
Proof.
  intros [H1 H2] [H3 H4]. split; [congruence|].
  intros other Hne. by rewrite H4, H2.
Qed.

Lemma same_but_update db task_id st iu em ca :
  same_but task_id db (update_task db task_id st iu em ca).1.
Proof.
  split; [apply ids_update_task|]. intros other Hne. by apply update_task_other.
Qed.

Lemma same_but_callback db receipt cb :
  same_but (cb_task_id cb) db (image_generation_callback db receipt cb).1.
Proof. rewrite callback_store. apply same_but_update. Qed.

Lemma same_but_post db tr task_id u now :
  same_but task_id db (post db tr (completion_payload task_id u now)).1.
Proof.
  destruct tr as [receipt|[receipt|] e|c]; simpl; try apply same_but_refl.
  - pose proof (same_but_callback db receipt (completion_payload task_id u now)) as H.
    by destruct (image_generation_callback db receipt _).
  - apply (same_but_callback db receipt (completion_payload task_id u now)).
Qed.

Lemma same_but_call_webhook db task_id u now_payload now_fallback tr :
  Forall (same_but task_id db)
    (_call_webhook db task_id u now_payload now_fallback tr).
Proof.
  unfold _call_webhook.
  pose proof (same_but_post db tr task_id u now_payload) as H.
  destruct (post db tr _) as [db1 r]. simpl in H.
  assert (same_but task_id db (fallback db1 task_id u now_fallback)) as H'.
  { eapply same_but_trans; [done|]. apply same_but_update. }
  destruct r as [c|[]]; [destruct (c =? 200)%Z|..];
    repeat (apply List.Forall_cons; [done|]); apply List.Forall_nil.
Qed.

(** X7.  A worker writes to the row of its own task only: in every state it
    leaves, the table has the same ids in the same order and every other task
    reads as it did before the worker started, whatever the unit of work and
    the delivery do. *)
Theorem worker_touches_own_row db task_id w now_payload now_fallback tr :
  Forall (same_but task_id db)
    (_async_generate_image db task_id w now_payload now_fallback tr).
Proof.
  unfold _async_generate_image.
  destruct (get_task db task_id); [|apply List.Forall_nil].
  set (db1 := (update_task db task_id (Some "processing") None None None).1).
  assert (same_but task_id db db1) as H1 by apply same_but_update.
  destruct w as [|msg].
  - apply List.Forall_cons; [done|].
    eapply Forall_impl; [apply same_but_call_webhook|].
    intros db' H. by eapply same_but_trans.
  - apply List.Forall_cons; [done|]. apply List.Forall_cons; [|apply List.Forall_nil].
    eapply same_but_trans; [done|]. apply same_but_update.
Qed.

Lemma call_webhook_delivered db task_id u now_payload now_fallback receipt t :
  get_task db task_id = Some t →
  _call_webhook db task_id u now_payload now_fallback (Delivered receipt)
  = [(image_generation_callback db receipt
        (completion_payload task_id u now_payload)).1].
Proof.
  intros Ht. unfold _call_webhook. simpl post.
  pose proof (completion_reply db task_id u now_payload receipt t Ht) as H.
  destruct (image_generation_callback db receipt _) as [db1 r]. simpl in H.
  by subst r.
Qed.

(** X8.  A worker whose task is in the Store takes it to a terminal state,
    unless the post is answered with status 200 by something else than the
    callback endpoint.  When the unit of work throws, the task ends
    ["failed"] with the message of the exception, its image url and
    completion time untouched.  When it finishes, the task ends
    ["completed"] with the generated url and a completion time, whether the
    endpoint applied the callback, the fallback wrote the row, or both; after
    a foreign 200 the worker writes nothing more and the task stays
    ["processing"]. *)
Theorem worker_reaches_terminal db task_id w now_payload now_fallback tr t :
  get_task db task_id = Some t →
  ∃ db' t',
    last (_async_generate_image db task_id w now_payload now_fallback tr) = Some db' ∧
    get_task db' task_id = Some t' ∧
    match w with
    | Throws msg =>
        status t' = "failed" ∧ error_message t' = Some msg ∧
        image_url t' = image_url t ∧ completed_at t' = completed_at t
    | Finished =>
        (tr ≠ Foreign 200 →
         status t' = "completed" ∧ image_url t' = Some (generated_url task_id) ∧
         has_completed_at t' = true) ∧
        (tr = Foreign 200 →
         status t' = "processing" ∧ image_url t' = image_url t ∧
         completed_at t' = completed_at t)
    end.
Proof.
  intros Ht. unfold _async_generate_image. rewrite Ht.
  set (db1 := (update_task db task_id (Some "processing") None None None).1).
  assert (get_task db1 task_id
          = Some (set_fields (Some "processing") None None None t)) as H1
    by by apply update_task_known.
  destruct w as [|msg].
  - fold (generated_url task_id). set (u := generated_url task_id).
    destruct tr as [receipt|[receipt|] e|c].
    + rewrite (call_webhook_delivered _ _ _ _ _ _ _ H1). simpl last.
      eexists _, _. split; [reflexivity|].
      rewrite callback_store. simpl.
      split; [by apply update_task_known|]. split; [done|]. by intros [=].
    + destruct (callback_keeps_known db1 receipt
                  (completion_payload task_id u now_payload) task_id _ H1) as [t2 Ht2].
      rewrite call_webhook_failed by (by destruct e). simpl.
      eexists _, _. split; [reflexivity|].
      split; [by apply fallback_known|]. split; [done|]. by intros [=].
    + rewrite call_webhook_failed by (by destruct e). simpl.
      eexists _, _. split; [reflexivity|].
      split; [by apply fallback_known|]. split; [done|]. by intros [=].
    + destruct (decide (c = 200%Z)) as [->|Hc].
      * eexists _, _. split; [reflexivity|]. split; [done|]. split; [done|done].
      * rewrite call_webhook_failed by (simpl; congruence). simpl.
        eexists _, _. split; [reflexivity|].
        split; [by apply fallback_known|]. split; [done|]. intros [=]. done.
  - simpl last. eexists _, _. split; [reflexivity|].
    split; [by apply update_task_known|]. done.
Qed.

(* ===================================================================== *)
(** * Further properties of the session cache *)
(* ===================================================================== *)

(** X9.  Merging the same snapshot a second time changes nothing, whatever
    the cache holds. *)
Theorem upsert_twice (tasks : list entry) (snapshot : entry) :
  upsert (upsert tasks snapshot) snapshot = upsert tasks snapshot.
Proof.
  induction tasks as [|t tasks IH]; simpl.
  - rewrite decide_True by done. by rewrite (idemp_L (∪)).
  - destruct (decide _) as [E|E]; simpl.
    + rewrite decide_True by (by rewrite py_get_merge).
      by rewrite merge_twice.
    + rewrite decide_False by done. by rewrite IH.
Qed.

Lemma upsert_holds_snapshot (tasks : list entry) (d : entry) :
  ∃ e, e ∈ upsert tasks d ∧ ∀ k v, d !! k = Some v → e !! k = Some v.
Proof.
  induction tasks as [|t tasks IH]; simpl.
  - exists d. split; [apply list_elem_of_here|done].
  - destruct (decide _).
    + exists (d ∪ t). split; [apply list_elem_of_here|].
      intros k v Hk. by rewrite merge_lookup, Hk.
    + destruct IH as (e & He & Hd). exists e.
      split; [by apply list_elem_of_further|done].
Qed.

Lemma length_upsert (tasks : list entry) (d : entry) :
  (length tasks ≤ length (upsert tasks d) ≤ S (length tasks))%nat.
Proof.
  induction tasks as [|t tasks IH]; simpl; [lia|].
  destruct (decide _); simpl; lia.
Qed.

Lemma pending_of_app l1 l2 : pending_of (l1 ++ l2) = pending_of l1 ++ pending_of l2.
Proof. apply List.filter_app. Qed.

Lemma pending_of_terminal l :
  Forall (fun t => non_terminal t = false) l → pending_of l = [].
Proof.
  unfold pending_of. induction 1 as [|t l Ht _ IH]; simpl; [done|]. by rewrite Ht.
Qed.

Lemma cleanup_ok_cases s tasks ss' :
  image_generation_tasks s = Some tasks →
  _cleanup_old_tasks (Some s) = Ok ss' →
  ((length tasks ≤ MAX_TASKS_IN_SESSION_STATE)%nat ∧ ss' = Some s) ∨
  ((MAX_TASKS_IN_SESSION_STATE < length tasks)%nat ∧
   ss' = Some (set_tasks s
           (pending_of tasks ++
            take (MAX_TASKS_IN_SESSION_STATE - length (pending_of tasks))
              (sort_desc entry_below (completed_of tasks))))).
Proof.
  intros Htasks. unfold _cleanup_old_tasks. rewrite Htasks. simpl default.
  destruct (length tasks <=? MAX_TASKS_IN_SESSION_STATE)%nat eqn:E.
  - apply Nat.leb_le in E. intros [= <-]. by left.
  - apply Nat.leb_gt in E.
    fold (completed_of tasks). fold (pending_of tasks).
    unfold sort_by_created. destruct (_ && _); [done|].
    rewrite remaining_slots. intros [= <-]. right. split; [lia|done].
Qed.

Lemma cleanup_keeps_pending ss ss' :
  _cleanup_old_tasks ss = Ok ss' →
  pending_of (_get_tasks_from_session_state ss')
  = pending_of (_get_tasks_from_session_state ss).
Proof.
  destruct ss as [s|]; [|by intros [= <-]].
  intros Hok.
  destruct (image_generation_tasks s) as [tasks|] eqn:Htasks; cycle 1.
  { unfold _cleanup_old_tasks in Hok. rewrite Htasks in Hok. simpl in Hok.
    by injection Hok as <-. }
  destruct (cleanup_ok_cases s tasks ss' Htasks Hok) as [[Hcap ->]|[Hlen ->]];
    [done|].
  set (n := (MAX_TASKS_IN_SESSION_STATE - length (pending_of tasks))%nat).
  set (sorted := sort_desc entry_below (completed_of tasks)).
  assert (Forall (fun t => non_terminal t = false) (take n sorted)) as Hterm.
  { apply Forall_forall. intros t Ht.
    eapply elem_of_sublist in Ht; [|apply sublist_take].
    apply elem_of_sort_desc, elem_of_completed_of in Ht as [_ ?]. done. }
  simpl. rewrite Htasks. simpl.
  by rewrite pending_of_app, pending_of_pending, (pending_of_terminal _ Hterm),
    app_nil_r.
Qed.

(** X10.  When the clean-up returns, for any cache: the entries in progress
    are all still there, in their order; nothing is added (the result is a
    sub-multiset of the cache); at most 20 entries remain, or only the
    entries in progress when those are more than 20; a cache of at most 20
    entries is returned as it is; and cleaning the result again changes
    nothing. *)
Theorem cleanup_keeps_entries_in_progress ss ss' :
  _cleanup_old_tasks ss = Ok ss' →
  pending_of (_get_tasks_from_session_state ss')
  = pending_of (_get_tasks_from_session_state ss) ∧
  _get_tasks_from_session_state ss' ⊆+ _get_tasks_from_session_state ss ∧
  (length (_get_tasks_from_session_state ss')
   ≤ MAX_TASKS_IN_SESSION_STATE `max`
       length (pending_of (_get_tasks_from_session_state ss)))%nat ∧
  ((length (_get_tasks_from_session_state ss) ≤ MAX_TASKS_IN_SESSION_STATE)%nat →
   ss' = ss) ∧
  _cleanup_old_tasks ss' = Ok ss'.
Proof.
  destruct ss as [s|]; [|intros [= <-]; simpl; repeat split; try done; lia].
  intros Hok.
  destruct (image_generation_tasks s) as [tasks|] eqn:Htasks; cycle 1.
  { unfold _cleanup_old_tasks in Hok. rewrite Htasks in Hok. simpl in Hok.
    injection Hok as <-. simpl. rewrite Htasks. simpl.
    repeat split; try done; try lia. }
  destruct (cleanup_ok_cases s tasks ss' Htasks Hok) as [[Hcap ->]|[Hlen ->]].
  - split; [|split; [|split; [|split; [done|exact Hok]]]];
      simpl; rewrite Htasks; simpl; try done; lia.
  - set (n := (MAX_TASKS_IN_SESSION_STATE - length (pending_of tasks))%nat).
    set (sorted := sort_desc entry_below (completed_of tasks)).
    assert (Forall (fun t => non_terminal t = false) (take n sorted)) as Hterm.
    { apply Forall_forall. intros t Ht.
      eapply elem_of_sublist in Ht; [|apply sublist_take].
      apply elem_of_sort_desc, elem_of_completed_of in Ht as [_ ?]. done. }
    split; [|split; [|split; [|split]]].
    1-4: simpl; rewrite ?Htasks; simpl.
    + by rewrite pending_of_app, pending_of_pending, (pending_of_terminal _ Hterm),
        app_nil_r.
    + rewrite <- (pending_completed_perm tasks) at 2.
      apply submseteq_app; [done|].
      etrans; [apply sublist_submseteq, sublist_take|].
      apply Permutation_submseteq, sort_desc_perm.
    + rewrite length_app, length_take. unfold n. lia.
    + lia.
    + destruct (decide (length (pending_of tasks ++ take n sorted)
                        ≤ MAX_TASKS_IN_SESSION_STATE)%nat) as [Hcap|Hcap].
      * by apply cleanup_within_cap.
      * rewrite length_app, length_take in Hcap.
        assert (n = 0)%nat as -> by (unfold n in *; lia).
        rewrite take_0, app_nil_r.
        rewrite (cleanup_above_cap _ (pending_of tasks)); try done.
        -- rewrite pending_of_pending, completed_of_pending. simpl.
           by rewrite take_nil, app_nil_r.
        -- simpl in Hcap. lia.
        -- rewrite completed_of_pending. constructor.
Qed.

(* ===================================================================== *)
(** * Further properties of the tools *)
(* ===================================================================== *)

(** X11.  [check_task_status] with a non-empty id.  For an unknown task it
    reports so and leaves the cache alone.  For a known task it returns the
    dictionary of the row, and the cache then holds an entry with every field
    of that dictionary; the entries are at least as many as before and at
    most one more (this tool never evicts), and when no entry had the id the
    dictionary is appended at the end. *)
Theorem check_task_status_refreshes db task_id s :
  task_id ≠ "" →
  match get_task db task_id with
  | None => check_task_status db task_id (Some s) = (TaskMissing task_id, Some s)
  | Some row =>
      ∃ tasks',
        check_task_status db task_id (Some s)
        = (StatusInfo (task_to_dict row), Some (set_tasks s tasks')) ∧
        (∃ e, e ∈ tasks' ∧ ∀ k v, task_to_dict row !! k = Some v → e !! k = Some v) ∧
        (length (default [] (image_generation_tasks s)) ≤ length tasks'
         ≤ S (length (default [] (image_generation_tasks s))))%nat ∧
        ((∀ e, e ∈ default [] (image_generation_tasks s) →
               py_get e "task_id" ≠ PStr task_id) →
         tasks' = default [] (image_generation_tasks s) ++ [task_to_dict row])
  end.
Proof.
  intros Hid. unfold check_task_status.
  apply String.eqb_neq in Hid. rewrite Hid.
  destruct (get_task db task_id) as [row|] eqn:Hrow; [|done].
  eexists. split; [reflexivity|]. split; [apply upsert_holds_snapshot|].
  split; [apply length_upsert|].
  intros Hnew. apply upsert_append. intros e He.
  rewrite task_to_dict_id, (get_task_id _ _ _ Hrow). by apply Hnew.
Qed.

Lemma text_keys_completed_of tasks : text_keys tasks → text_keys (completed_of tasks).
Proof.
  unfold text_keys, completed_of. rewrite !Forall_forall.
  intros H t Ht. apply H. apply list_elem_of_In, filter_In in Ht as [Ht _].
  by apply list_elem_of_In.
Qed.

Lemma cleanup_text_keys s :
  text_keys (default [] (image_generation_tasks s)) →
  ∃ ss', _cleanup_old_tasks (Some s) = Ok ss'.
Proof.
  intros Hk. destruct (image_generation_tasks s) as [tasks|] eqn:Htasks.
  - destruct (decide (length tasks ≤ MAX_TASKS_IN_SESSION_STATE)%nat).
    + exists (Some s). apply cleanup_within_cap. by rewrite Htasks.
    + eexists. apply (cleanup_above_cap s tasks); [done|lia|].
      by apply text_keys_completed_of.
  - exists (Some s). apply cleanup_within_cap. rewrite Htasks. simpl.
    unfold MAX_TASKS_IN_SESSION_STATE. lia.
Qed.

Lemma upsert_holds_pending (tasks : list entry) (d : entry) :
  non_terminal d = true →
  ∃ e, e ∈ upsert tasks d ∧ non_terminal e = true ∧
       ∀ k v, d !! k = Some v → e !! k = Some v.
Proof.
  intros Hd. induction tasks as [|t tasks IH]; simpl.
  - exists d. split; [apply list_elem_of_here|done].
  - destruct (decide _).
    + exists (d ∪ t). split; [apply list_elem_of_here|]. split.
      * unfold non_terminal, py_get in *. rewrite merge_lookup.
        destruct (d !! "status"); [done|]. simpl in Hd. done.
      * intros k v Hk. by rewrite merge_lookup, Hk.
    + destruct IH as (e & He & Hnt & Hkeys). exists e.
      split; [by apply list_elem_of_further|done].
Qed.

(** X12.  [generate_image] for a new task.  When a prompt [p] resolves, the
    id the call works with is not in the Store and the cache has no
    [created_at] that is [None]: exactly one row is appended, pending, with
    the prompt, the creation time and the session reference; one worker is
    started for that id and prompt; the message carries the id; and a cache
    that was passed in holds afterwards an entry for the task with the id,
    the prompt, the status ["pending"] and the creation time read for the
    cache, which the clean-up never evicts. *)
Theorem generate_image_new_task
    db prompt_ task_id ctx session_state uuid now_db now_cache p :
  resolves_to prompt_ ctx p →
  get_task db (used_id task_id uuid) = None →
  text_keys (_get_tasks_from_session_state session_state) →
  let tid := used_id task_id uuid in
  let g := generate_image db prompt_ task_id ctx session_state uuid now_db now_cache in
  gen_message g = TaskSubmitted tid ∧
  gen_worker g = Some (tid, p) ∧
  (∃ row,
     gen_db g = db ++ [row] ∧ get_task (gen_db g) tid = Some row ∧
     id row = tid ∧ prompt row = p ∧ status row = "pending" ∧
     created_at row = Some now_db ∧ completed_at row = None ∧
     session_id row = session_state ≫= ss_session_id) ∧
  match session_state with
  | None => gen_session_state g = None
  | Some _ =>
      ∃ e, e ∈ _get_tasks_from_session_state (gen_session_state g) ∧
           e !! "task_id" = Some (PStr tid) ∧ e !! "prompt" = Some (PStr p) ∧
           e !! "status" = Some (PStr "pending") ∧
           e !! "created_at" = Some (PStr (isoformat now_cache))
  end.
Proof.
  intros [Hp Hres] Hnew Hkeys. cbv zeta.
  set (tid := used_id task_id uuid) in *. unfold generate_image.
  assert ((if falsy prompt_ then extracted_prompt ctx else prompt_) = Some p) as ->.
  { destruct Hres as [->|[-> ->]]; [|done]. simpl.
    by apply String.eqb_neq in Hp as ->. }
  apply String.eqb_neq in Hp as Hp'. rewrite Hp'.
  assert ((if falsy task_id then uuid else default uuid task_id) = tid) as ->.
  { unfold tid, used_id. destruct task_id as [x|]; [|done]. simpl.
    by destruct (String.eqb x ""). }
  rewrite Hnew. unfold create_task. rewrite Hnew.
  set (task_info := <["task_id" := PStr tid]> _).
  assert (non_terminal task_info = true) as Hnt by done.
  set (local := default empty_session_state session_state).
  assert (text_keys (default [] (image_generation_tasks local))) as Hlocal.
  { unfold local. destruct session_state; [done|constructor]. }
  set (ss1 := _update_task_in_session_state (Some local) task_info).
  assert (∃ s1, ss1 = Some s1 ∧
                text_keys (default [] (image_generation_tasks s1)) ∧
                ∃ e, e ∈ default [] (image_generation_tasks s1) ∧
                     non_terminal e = true ∧
                     ∀ k v, task_info !! k = Some v → e !! k = Some v)
    as (s1 & Hs1 & Hk1 & e & He & Hent & Hfields).
  { eexists. split; [reflexivity|]. simpl. split.
    - by apply text_keys_upsert.
    - by apply upsert_holds_pending. }
  rewrite Hs1. destruct (cleanup_text_keys s1 Hk1) as [ss2 Hclean].
  rewrite Hclean. simpl.
  split; [done|]. split; [done|]. split.
  { eexists. split; [reflexivity|]. rewrite get_task_snoc by done. simpl.
    rewrite String.eqb_refl. repeat split. unfold local. by destruct session_state. }
  destruct session_state as [s|]; [|done].
  exists e.
  pose proof (cleanup_keeps_pending _ _ Hclean) as Hpend.
  split.
  - assert (e ∈ pending_of (_get_tasks_from_session_state ss2)) as Hin.
    { rewrite Hpend. apply elem_of_pending_of. by split. }
    by apply elem_of_pending_of in Hin as [? _].
  - repeat split; by apply Hfields.
Qed.

Lemma refreshes_once db ids t x :
  x ∈ ids → text_id t = Some x →
  foldl (fun t x => refresh db x t) t ids = refresh db x t.
Proof.
  revert t. induction ids as [|y ids IH]; intros t Hin Hx; simpl.
  - by apply elem_of_nil in Hin.
  - destruct (decide (y = x)) as [->|Hne].
    + by apply refreshes_of_absorbed, refresh_absorbed.
    + rewrite (refresh_other db y t) by congruence.
      apply IH; [|done]. apply elem_of_cons in Hin as [?|?]; [congruence|done].
Qed.

Lemma refreshes_sync_entry db tasks t :
  unique_ids tasks → t ∈ tasks →
  foldl (fun t x => refresh db x t) t (pending_task_ids tasks) = sync_entry db t.
Proof.
  intros Huniq Ht. unfold sync_entry.
  destruct (text_id t) as [x|] eqn:Hx; simpl.
  - destruct (decide (x ∈ pending_task_ids tasks)) as [Hin|Hout].
    + rewrite (refreshes_once db _ t x) by done.
      apply elem_of_pending_task_ids in Hin as (u & Hu & Hnt & Htruthy & Hux).
      assert (u = t) as -> by by eapply same_id_same_entry.
      rewrite Hnt, Htruthy. simpl. unfold refresh. by rewrite decide_True.
    + rewrite refreshes_other by (intros y Hy; congruence).
      destruct (non_terminal t && truthy (py_get t "task_id")) eqn:E; [|done].
      exfalso. apply Hout. apply elem_of_pending_task_ids. exists t.
      by apply andb_true_iff in E as [? ?].
  - rewrite refreshes_other by (intros y Hy; congruence).
    by destruct (_ && _).
Qed.

(** X13.  On a cache keyed by [task_id], [sync_pending_tasks] is entry-wise:
    when there is something to sync, the cache it leaves is the clean-up of
    the list in which every entry in progress with a truthy id has taken the
    fields of its row (an entry whose task the Store does not know stays) and
    every other entry is untouched, in the same order; a cache of at most 20
    entries is that list itself.  When nothing is in progress the cache is
    left as it is. *)
Theorem sync_is_entry_wise db s :
  unique_ids (default [] (image_generation_tasks s)) →
  (sync_pending_tasks db (Some s)).2
  = match pending_task_ids (default [] (image_generation_tasks s)) with
    | [] => Some s
    | _ => after_cleanup
             (Some (set_tasks s
                (map (sync_entry db) (default [] (image_generation_tasks s)))))
    end ∧
  ((length (default [] (image_generation_tasks s)) ≤ MAX_TASKS_IN_SESSION_STATE)%nat →
   pending_task_ids (default [] (image_generation_tasks s)) ≠ [] →
   (sync_pending_tasks db (Some s)).2
   = Some (set_tasks s (map (sync_entry db) (default [] (image_generation_tasks s))))).
Proof.
  intros Huniq.
  set (tasks := default [] (image_generation_tasks s)) in *.
  assert ((sync_pending_tasks db (Some s)).2
          = match pending_task_ids tasks with
            | [] => Some s
            | _ => after_cleanup (Some (set_tasks s (map (sync_entry db) tasks)))
            end) as Hmain.
  { rewrite sync_state. fold tasks.
    destruct (pending_task_ids tasks) as [|x ids] eqn:Hids; [done|].
    assert (image_generation_tasks s = Some tasks) as Htasks.
    { unfold tasks in *. destruct (image_generation_tasks s); [done|]. discriminate. }
    rewrite (sync_loop_state db _ s tasks) by done.
    rewrite <- Hids.
    rewrite sync_steps_map; [|done|intros y; apply pending_ids_present].
    do 3 f_equal. apply map_ext_in. intros t Ht.
    apply refreshes_sync_entry; [done|]. by apply list_elem_of_In. }
  split; [done|].
  intros Hcap Hids. rewrite Hmain.
  destruct (pending_task_ids tasks); [done|].
  unfold after_cleanup. rewrite cleanup_within_cap; [done|].
  simpl. by rewrite length_map.
Qed.

Lemma sync_loop_counters db ids ss c :
  (sync_loop db ids ss c).2
  = let rows := omap (get_task db) ids in
    {| updated_count := updated_count c + length rows;
       completed_count :=
         completed_count c
         + length (List.filter (fun t => String.eqb (status t) "completed") rows);
       still_pending_count :=
         still_pending_count c
         + length (List.filter
                     (fun t => String.eqb (status t) "pending"
                               || String.eqb (status t) "processing") rows) |}.
Proof.
  revert ss c. induction ids as [|x ids IH]; intros ss c.
  - destruct c. simpl. f_equal; lia.
  - cbn [sync_loop omap list_omap]. destruct (get_task db x) as [row|].
    + rewrite IH. cbn [updated_count completed_count still_pending_count].
      cbn zeta. cbn [List.filter length].
      destruct (String.eqb_spec (status row) "completed") as [E|E].
      * rewrite E. simpl. f_equal; lia.
      * destruct (String.eqb (status row) "pending" ||
                  String.eqb (status row) "processing"); simpl; f_equal; lia.
    + by rewrite IH.
Qed.

(** X14.  The summary of [sync_pending_tasks].  From a Store whose rows have
    a creation time and a well-formed cache, the call never reports a
    failure: it says there is nothing to sync exactly when no entry is in
    progress with a truthy id, and otherwise reports how many of the ids it
    looked up are in the Store, how many of those rows are ["completed"] and
    how many are still ["pending"] or ["processing"]. *)
Theorem sync_reports_counts db s :
  dated db →
  well_formed (default [] (image_generation_tasks s)) →
  (sync_pending_tasks db (Some s)).1
  = match pending_task_ids (default [] (image_generation_tasks s)) with
    | [] => NothingToSync
    | ids =>
        let rows := omap (get_task db) ids in
        Synced (length rows)
          (length (List.filter (fun t => String.eqb (status t) "completed") rows))
          (length (List.filter
                     (fun t => String.eqb (status t) "pending"
                               || String.eqb (status t) "processing") rows))
    end.
Proof.
  intros Hdb Hwf. unfold sync_pending_tasks, _get_tasks_from_session_state.
  destruct (pending_task_ids _) as [|x ids] eqn:Hids; [done|].
  pose proof (sync_loop_counters db (x :: ids) (Some s) (mkCounters 0 0 0)) as Hc.
  pose proof (well_formed_sync_loop db (x :: ids) (Some s) (mkCounters 0 0 0) Hdb Hwf)
    as [_ Hk].
  destruct (sync_loop db (x :: ids) (Some s) _) as [ss1 c]. simpl in Hc, Hk.
  subst c.
  destruct ss1 as [s1|].
  - destruct (cleanup_text_keys s1 Hk) as [ss2 ->]. done.
  - done.
Qed.

(* ===================================================================== *)
(** * Further properties of the timestamps *)
(* ===================================================================== *)

Lemma N_of_digit_char n : N_of_ascii (digit_char n) = (48 + n mod 10)%N.
Proof.
  unfold digit_char. apply N_ascii_embedding.
  pose proof (N.mod_lt n 10 ltac:(lia)). lia.
Qed.

Lemma digit_of_digit_char n : digit_of (digit_char n) = Some (n mod 10)%N.
Proof.
  unfold digit_of. rewrite N_of_digit_char.
  pose proof (N.mod_lt n 10 ltac:(lia)) as Hr.
  revert Hr. generalize (n mod 10)%N. intros r Hr.
  replace ((48 <=? 48 + r) && (48 + r <=? 57))%N with true.
  - f_equal. lia.
  - symmetry. apply andb_true_intro. split; apply N.leb_le; lia.
Qed.

Lemma digit_char_eqb n a :
  (N_of_ascii a <? 48)%N || (57 <? N_of_ascii a)%N = true →
  Ascii.eqb (digit_char n) a = false.
Proof.
  intros Ha. apply Ascii.eqb_neq. intros <-.
  rewrite N_of_digit_char in Ha.
  pose proof (N.mod_lt n 10 ltac:(lia)) as Hr.
  revert Ha Hr. generalize (n mod 10)%N. intros r Ha Hr.
  apply orb_true_iff in Ha as [Ha|Ha]; apply N.ltb_lt in Ha; lia.
Qed.

Lemma decimal_step (n : N) : (n = 10 * (n / 10) + n mod 10 ∧ n mod 10 < 10)%N.
Proof. split; [apply N.div_mod'|apply N.mod_lt; lia]. Qed.

Lemma decimal_2 (n : N) :
  (n < 100 → 10 * (10 * 0 + (n / 10) mod 10) + n mod 10 = n)%N.
Proof.
  intros Hn.
  destruct (decimal_step n) as [E0 B0]. destruct (decimal_step (n / 10)) as [E1 B1].
  revert E0 B0 E1 B1.
  generalize (n / 10 / 10)%N.
  generalize ((n / 10) mod 10)%N.
  generalize (n mod 10)%N.
  generalize (n / 10)%N.
  lia.
Qed.

Lemma decimal_4 (n : N) :
  (n < 10000 →
   10 * (10 * (10 * (10 * 0 + (n / 10 / 10 / 10) mod 10) + (n / 10 / 10) mod 10)
         + (n / 10) mod 10) + n mod 10 = n)%N.
Proof.
  intros Hn.
  destruct (decimal_step n) as [E0 B0]. destruct (decimal_step (n / 10)) as [E1 B1].
  destruct (decimal_step (n / 10 / 10)) as [E2 B2].
  destruct (decimal_step (n / 10 / 10 / 10)) as [E3 B3].
  revert E0 B0 E1 B1 E2 B2 E3 B3.
  generalize (n / 10 / 10 / 10 / 10)%N.
  generalize ((n / 10 / 10 / 10) mod 10)%N.
  generalize ((n / 10 / 10) mod 10)%N.
  generalize ((n / 10) mod 10)%N.
  generalize (n mod 10)%N.
  generalize (n / 10 / 10 / 10)%N.
  generalize (n / 10 / 10)%N.
  generalize (n / 10)%N.
  lia.
Qed.

Lemma decimal_6 (n : N) :
  (n < 1000000 →
   10 * (10 * (10 * (10 * (10 * (10 * 0 + (n / 10 / 10 / 10 / 10 / 10) mod 10)
                           + (n / 10 / 10 / 10 / 10) mod 10)
                     + (n / 10 / 10 / 10) mod 10) + (n / 10 / 10) mod 10)
         + (n / 10) mod 10) + n mod 10 = n)%N.
Proof.
  intros Hn.
  destruct (decimal_step n) as [E0 B0]. destruct (decimal_step (n / 10)) as [E1 B1].
  destruct (decimal_step (n / 10 / 10)) as [E2 B2].
  destruct (decimal_step (n / 10 / 10 / 10)) as [E3 B3].
  destruct (decimal_step (n / 10 / 10 / 10 / 10)) as [E4 B4].
  destruct (decimal_step (n / 10 / 10 / 10 / 10 / 10)) as [E5 B5].
  revert E0 B0 E1 B1 E2 B2 E3 B3 E4 B4 E5 B5.
  generalize (n / 10 / 10 / 10 / 10 / 10 / 10)%N.
  generalize ((n / 10 / 10 / 10 / 10 / 10) mod 10)%N.
  generalize ((n / 10 / 10 / 10 / 10) mod 10)%N.
  generalize ((n / 10 / 10 / 10) mod 10)%N.
  generalize ((n / 10 / 10) mod 10)%N.
  generalize ((n / 10) mod 10)%N.
  generalize (n mod 10)%N.
  generalize (n / 10 / 10 / 10 / 10 / 10)%N.
  generalize (n / 10 / 10 / 10 / 10)%N.
  generalize (n / 10 / 10 / 10)%N.
  generalize (n / 10 / 10)%N.
  generalize (n / 10)%N.
  lia.
Qed.

Lemma replace_Z_cons c s :
  Ascii.eqb c "Z" = false → replace_Z (String c s) = String c (replace_Z s).
Proof. intros H. simpl. by rewrite H. Qed.

Lemma number_2 n :
  (n < 100)%N → number [digit_char (n / 10); digit_char n] = Some n.
Proof.
  intros Hn. unfold number, digits_from.
  rewrite !digit_of_digit_char. by rewrite decimal_2.
Qed.

Lemma number_4 n :
  (n < 10000)%N →
  number [digit_char (n / 10 / 10 / 10); digit_char (n / 10 / 10);
          digit_char (n / 10); digit_char n] = Some n.
Proof.
  intros Hn. unfold number, digits_from.
  rewrite !digit_of_digit_char. by rewrite decimal_4.
Qed.

Lemma number_6 n :
  (n < 1000000)%N →
  number [digit_char (n / 10 / 10 / 10 / 10 / 10); digit_char (n / 10 / 10 / 10 / 10);
          digit_char (n / 10 / 10 / 10); digit_char (n / 10 / 10);
          digit_char (n / 10); digit_char n] = Some n.
Proof.
  intros Hn. unfold number, digits_from.
  rewrite !digit_of_digit_char. by rewrite decimal_6.
Qed.

Lemma is_offset_digit n l : is_offset (digit_char n :: l) = false.
Proof.
  destruct l as [|? [|? [|? [|? [|? [|? ?]]]]]]; try reflexivity.
  unfold is_offset.
  by rewrite (digit_char_eqb n "+" eq_refl), (digit_char_eqb n "-" eq_refl).
Qed.

Lemma is_offset_colon l : is_offset (":"%char :: l) = false.
Proof. by destruct l as [|? [|? [|? [|? [|? [|? ?]]]]]]. Qed.

Lemma days_in_month_le y m : (days_in_month y m ≤ 31)%N.
Proof. unfold days_in_month. repeat case_match; lia. Qed.

(** The texts the endpoint is sent for the moment [d]: [isoformat], the
    same followed by ["Z"], or by the offset of UTC. *)
Lemma fromisoformat_known_isoformat d sfx :
  is_datetime d = true →
  sfx = "" ∨ sfx = "Z" ∨ sfx = "+00:00" →
  fromisoformat_known (replace_Z (isoformat d ++ sfx)) = Some d.
Proof.
  destruct d as [y mo dd h mi s us]. unfold is_datetime.
  cbn [year month day hour minute second microsecond].
  intros Hv Hsfx. repeat (apply andb_prop in Hv as [Hv ?]).
  pose proof (days_in_month_le y mo) as Hdays.
  pose proof (number_4 y ltac:(apply N.leb_le in H7; lia)) as Ny.
  pose proof (number_2 mo ltac:(apply N.leb_le in H5; lia)) as Nmo.
  pose proof (number_2 dd ltac:(apply N.leb_le in H3; lia)) as Ndd.
  pose proof (number_2 h ltac:(apply N.leb_le in H2; lia)) as Nh.
  pose proof (number_2 mi ltac:(apply N.leb_le in H1; lia)) as Nmi.
  pose proof (number_2 s ltac:(apply N.leb_le in H0; lia)) as Ns.
  pose proof (number_6 us ltac:(apply N.leb_le in H; lia)) as Nus.
  pose proof (λ n, digit_char_eqb n "Z" eq_refl) as HZ.
  unfold isoformat. cbn [year month day hour minute second microsecond pad].
  destruct (us =? 0)%N eqn:Hus;
    [apply N.eqb_eq in Hus as ->|];
    destruct Hsfx as [->|[->| ->]];
    cbv [String.append];
    rewrite !replace_Z_cons by (apply HZ || reflexivity);
    change (replace_Z "Z") with "+00:00";
    unfold fromisoformat_known;
    cbn [replace_Z list_ascii_of_string take drop firstn skipn];
    unfold parse_date; rewrite Ny, Nmo, Ndd;
    change (Ascii.eqb "-" "-") with true; cbn [andb mbind option_bind];
    rewrite Hv, H6, H5, H4, H3; cbn [andb];
    unfold strip_offset; cbn [length Nat.sub drop skipn];
    rewrite ?is_offset_digit, ?is_offset_colon;
    change (is_offset ["+"; "0"; "0"; ":"; "0"; "0"]%char) with true;
    cbn [take firstn drop skipn];
    unfold parse_hms; rewrite Nh, Nmi, Ns;
    change (Ascii.eqb ":" ":") with true; cbn [andb mbind option_bind];
    rewrite H2, H1, H0; cbn [andb];
    unfold parse_fraction; change (Ascii.eqb "." ".") with true;
    cbn [length]; by rewrite ?Nus.
Qed.

Lemma fromisoformat_isoformat d sfx :
  is_datetime d = true →
  sfx = "" ∨ sfx = "Z" ∨ sfx = "+00:00" →
  fromisoformat (replace_Z (isoformat d ++ sfx)) = Some d.
Proof.
  intros Hd Hsfx. unfold fromisoformat.
  by rewrite fromisoformat_known_isoformat.
Qed.

Lemma append_empty (s : string) : (s ++ "")%string = s.
Proof. induction s as [|a s IH]; [done|]. cbv [String.append]. fold String.append. by rewrite IH. Qed.

(** X16.  The text the notifier sends for a moment is read back by the
    endpoint as that moment: for every [datetime] value [d],
    [fromisoformat] of [d.isoformat()] after the replacement of ["Z"] is
    [d], with or without microseconds; and the same text followed by ["Z"],
    which the replacement turns into the offset of UTC, is read as [d]
    too. *)
Theorem timestamp_round_trip d :
  is_datetime d = true →
  fromisoformat (replace_Z (isoformat d)) = Some d ∧
  fromisoformat (replace_Z (isoformat d ++ "Z")) = Some d.
Proof.
  intros Hd. split.
  - rewrite <- (append_empty (isoformat d)). apply fromisoformat_isoformat; auto.
  - apply fromisoformat_isoformat; auto.
Qed.

(** X17.  The completion time a notifier leaves on the row of its task is
    always a reading of its own clock, never the time at which the endpoint
    received the callback: the time of the payload when the post is answered
    by the endpoint, the time of the direct write in every other case (the
    post raises, before or after the endpoint has served it, or the reply has
    another status than 200).  A reply 200 from something else than the
    endpoint is the one case left out: the notifier writes nothing then. *)
Theorem completion_time_is_notifiers db task_id u now_payload now_fallback tr t :
  is_datetime now_payload = true →
  get_task db task_id = Some t →
  tr ≠ Foreign 200 →
  ∃ db' t',
    last (_call_webhook db task_id u now_payload now_fallback tr) = Some db' ∧
    get_task db' task_id = Some t' ∧
    status t' = "completed" ∧
    image_url t' = Some u ∧
    completed_at t'
    = Some (match tr with Delivered _ => now_payload | _ => now_fallback end).
Proof.
  intros Hd Ht Htr.
  assert (fromisoformat (replace_Z (isoformat now_payload)) = Some now_payload)
    as Hparse.
  { rewrite <- (append_empty (isoformat now_payload)).
    apply fromisoformat_isoformat; auto. }
  destruct tr as [receipt|[receipt|] e|c].
  - rewrite (call_webhook_delivered _ _ _ _ _ _ _ Ht). simpl last.
    eexists _, _. split; [reflexivity|].
    rewrite callback_store. unfold completion_payload.
    cbn [cb_task_id cb_status cb_image_url cb_completed_at cb_error_message].
    rewrite Hparse.
    split; [by apply update_task_known|]. done.
  - destruct (callback_keeps_known db receipt
                (completion_payload task_id u now_payload) task_id _ Ht) as [t2 Ht2].
    rewrite call_webhook_failed by (by destruct e). simpl.
    eexists _, _. split; [reflexivity|].
    split; [by apply fallback_known|]. done.
  - rewrite call_webhook_failed by (by destruct e). simpl.
    eexists _, _. split; [reflexivity|].
    split; [by apply fallback_known|]. done.
  - rewrite call_webhook_failed by (simpl; congruence). simpl.
    eexists _, _. split; [reflexivity|].
    split; [by apply fallback_known|]. done.
Qed.

(* ===================================================================== *)
(** * From the submission to the report *)
(* ===================================================================== *)

(** A worker is started only for a row that the call has just inserted. *)
Lemma generate_image_worker
    db prompt_ task_id ctx session_state uuid now_db now_cache tid p :
  gen_worker (generate_image db prompt_ task_id ctx session_state uuid now_db now_cache)
  = Some (tid, p) →
  ∃ row,
    get_task
      (gen_db (generate_image db prompt_ task_id ctx session_state uuid now_db now_cache))
      tid = Some row ∧
    id row = tid ∧ prompt row = p ∧ status row = "pending" ∧
    created_at row = Some now_db.
Proof.
  unfold generate_image.
  destruct (if falsy prompt_ then _ else _) as [p'|]; [|done].
  destruct (String.eqb p' ""); [done|].
  set (tid' := if falsy task_id then uuid else default uuid task_id).
  destruct (get_task db tid') eqn:Hnew; [done|].
  unfold create_task. rewrite Hnew.
  destruct (_cleanup_old_tasks _); [|done].
  cbn [gen_worker gen_db]. intros [= <- <-].
  eexists. rewrite get_task_snoc by done. cbn [id]. rewrite String.eqb_refl.
  done.
Qed.

(** The row a worker leaves when its unit of work has finished. *)
Lemma worker_finished_row db task_id now_payload now_fallback tr t :
  get_task db task_id = Some t →
  tr ≠ Foreign 200 →
  ∃ db' c,
    last (_async_generate_image db task_id Finished now_payload now_fallback tr)
    = Some db' ∧
    get_task db' task_id
    = Some (set_fields (Some "completed") (Some (generated_url task_id)) None (Some c)
              (set_fields (Some "processing") None None None t)).
Proof.
  intros Ht Htr. unfold _async_generate_image. rewrite Ht.
  set (db1 := (update_task db task_id (Some "processing") None None None).1).
  assert (get_task db1 task_id
          = Some (set_fields (Some "processing") None None None t)) as H1
    by by apply update_task_known.
  fold (generated_url task_id). set (u := generated_url task_id).
  destruct tr as [receipt|[receipt|] e|c].
  - rewrite (call_webhook_delivered _ _ _ _ _ _ _ H1). cbn [last].
    eexists _, _. split; [reflexivity|].
    rewrite callback_store. unfold completion_payload.
    cbn [cb_task_id cb_status cb_image_url cb_completed_at cb_error_message].
    by apply update_task_known.
  - rewrite call_webhook_failed by (by destruct e).
    cbv zeta. cbn [post fst last].
    eexists _, now_fallback. split; [reflexivity|].
    rewrite callback_store. unfold completion_payload.
    cbn [cb_task_id cb_status cb_image_url cb_completed_at cb_error_message].
    by rewrite (fallback_known _ _ _ _ _ (update_task_known _ _ _ _ _ _ _ H1)).
  - rewrite call_webhook_failed by (by destruct e).
    cbv zeta. cbn [post fst last].
    eexists _, _. split; [reflexivity|]. by apply fallback_known.
  - rewrite call_webhook_failed by (cbn [post snd]; congruence).
    cbv zeta. cbn [post fst last].
    eexists _, _. split; [reflexivity|]. by apply fallback_known.
Qed.

(** X18.  From the submission to the report.  When [generate_image] has
    started a worker for the id [tid] and the prompt [p], the unit of work
    finishes and the post is not answered with status 200 by something else
    than the callback endpoint, then, whatever the transport does otherwise,
    [check_task_status] for [tid] on the Store the worker leaves returns the
    dictionary of a row with that id and prompt, the status ["completed"],
    the generated url and the creation time of the submission, and the cache
    it is given holds afterwards an entry with these values. *)
Theorem submitted_task_is_reported
    db prompt_ task_id ctx session_state uuid now_db now_cache tid p
    now_payload now_fallback tr ss :
  gen_worker (generate_image db prompt_ task_id ctx session_state uuid now_db now_cache)
  = Some (tid, p) →
  tid ≠ "" →
  tr ≠ Foreign 200 →
  ∃ db' row tasks',
    last (_async_generate_image
            (gen_db (generate_image db prompt_ task_id ctx session_state uuid
                       now_db now_cache))
            tid Finished now_payload now_fallback tr) = Some db' ∧
    check_task_status db' tid (Some ss)
    = (StatusInfo (task_to_dict row), Some (set_tasks ss tasks')) ∧
    id row = tid ∧ prompt row = p ∧ status row = "completed" ∧
    image_url row = Some (generated_url tid) ∧ created_at row = Some now_db ∧
    has_completed_at row = true ∧
    ∃ e, e ∈ tasks' ∧
         e !! "task_id" = Some (PStr tid) ∧ e !! "prompt" = Some (PStr p) ∧
         e !! "status" = Some (PStr "completed") ∧
         e !! "image_url" = Some (PStr (generated_url tid)) ∧
         e !! "created_at" = Some (PStr (isoformat now_db)).
Proof.
  intros Hworker Hid Htr.
  destruct (generate_image_worker _ _ _ _ _ _ _ _ _ _ Hworker)
    as (row0 & Hrow0 & Hid0 & Hp0 & _ & Hc0).
  destruct (worker_finished_row _ tid now_payload now_fallback tr row0 Hrow0 Htr)
    as (db' & c & Hlast & Hrow).
  set (row := set_fields _ _ _ _ _) in Hrow.
  destruct (upsert_holds_snapshot (default [] (image_generation_tasks ss))
              (task_to_dict row)) as (e & He & Hfields).
  exists db', row, (upsert (default [] (image_generation_tasks ss)) (task_to_dict row)).
  split; [exact Hlast|]. split.
  { unfold check_task_status. apply String.eqb_neq in Hid. by rewrite Hid, Hrow. }
  split; [done|]. split; [done|]. split; [done|]. split; [done|].
  split; [done|]. split; [done|].
  exists e. split; [exact He|].
  repeat split; apply Hfields; unfold task_to_dict, row; simpl;
    rewrite ?Hid0, ?Hp0, ?Hc0;
    repeat (rewrite lookup_insert_ne by done); by rewrite lookup_insert_eq.
Qed.

End Model.

(* ===================================================================== *)
(** * The properties on concrete inputs *)
(* ===================================================================== *)

(** The examples are run with the [Python] that reads the known formats
    only; each of them evaluates. *)
#[local] Existing Instance known_formats_only.

Lemma webhook_failure_still_completes_witness :
  ∃ db1 t',
    last (_call_webhook one_pending "t1" t1_url noon_5s noon_9s (Faulted None ConnectError))
    = Some (fallback db1 "t1" t1_url noon_9s) ∧
    get_task (fallback db1 "t1" t1_url noon_9s) "t1" = Some t' ∧
    status t' = "completed" ∧
    image_url t' = Some t1_url ∧
    completed_at t' = Some noon_9s.
Proof.
  apply (webhook_failure_still_completes one_pending "t1" t1_url noon_5s noon_9s
           (Faulted None ConnectError) t1_pending).
  - reflexivity.
  - simpl. discriminate.
Defined.

(** C7, as stated, fails: the body of [malformed_callback] is accepted
    (the task exists, the reply is 200) at [noon_5s] and again at [noon_9s],
    and the row after the second processing differs from the row after the
    first, in [completed_at]. *)
Lemma callback_twice_differs :
  (image_generation_callback one_pending noon_5s malformed_callback).2 = Http200 ∧
  get_task
    (image_generation_callback
       (image_generation_callback one_pending noon_5s malformed_callback).1
       noon_9s malformed_callback).1 "t1"
  ≠ get_task (image_generation_callback one_pending noon_5s malformed_callback).1 "t1".
Proof. split; [reflexivity|]. vm_compute. discriminate. Qed.

Lemma callback_idempotent_witness :
  image_generation_callback
    (image_generation_callback one_pending noon_5s wellformed_callback).1
    noon_9s wellformed_callback
  = image_generation_callback one_pending noon_5s wellformed_callback.
Proof.
  apply (callback_idempotent one_pending wellformed_callback noon_5s noon_9s noon_5s).
  vm_compute. reflexivity.
Defined.

(** C4, as stated, fails: the task ["t1"] is in the Store, the call names
    it and gives no prompt, and none is found in the conversation; the
    message returned is the one about the missing prompt, it does not report
    the existing task. *)
Lemma existing_task_without_prompt :
  get_task one_pending "t1" = Some t1_pending ∧
  gen_message
    (generate_image one_pending None (Some "t1") no_context None "u-1" noon_5s noon_5s)
  ≠ TaskExists "t1" (status t1_pending).
Proof. split; [reflexivity|]. vm_compute. discriminate. Qed.

Lemma generate_image_existing_task_witness :
  let g := generate_image one_pending (Some "fruit puree") (Some "t1") no_context
             (Some empty_session_state) "u-1" noon_5s noon_5s in
  gen_db g = one_pending ∧
  gen_worker g = None ∧
  gen_session_state g = Some empty_session_state ∧
  gen_message g = TaskExists "t1" "pending".
Proof.
  apply (generate_image_existing_task one_pending (Some "fruit puree") "t1" no_context
           (Some empty_session_state) "u-1" noon_5s noon_5s t1_pending).
  - discriminate.
  - reflexivity.
Defined.

(** C1, as stated, fails: after a create and a receiver update whose body
    carries the status ["processing"], the row has a [completed_at] and a
    status that is neither ["completed"] nor ["failed"]. *)
Lemma completed_at_with_processing :
  ∃ t,
    get_task (run [] [Create "t1" "fruit puree" None None noon;
                      ReceiverUpdate progress_callback noon_9s]) "t1" = Some t ∧
    completed_at t = Some noon_5s ∧
    status t = "processing".
Proof. eexists. vm_compute. done. Qed.

Lemma completed_at_and_status_witness :
  let t := set_fields (Some "completed") (Some t1_url) None (Some noon_9s) t1_pending in
  t ∈ run [] fallback_run ∧ has_completed_at t = true ∧ terminal (status t) = true.
Proof.
  assert (set_fields (Some "completed") (Some t1_url) None (Some noon_9s) t1_pending
          ∈ run [] fallback_run) as Hin.
  { vm_compute. apply list_elem_of_here. }
  destruct (completed_at_and_status fallback_run _ Hin) as [H1 H2].
  split; [exact Hin|]. split; [apply H1; reflexivity|].
  apply H2; reflexivity.
Defined.

(** C2, as stated, fails: the task is created, started and completed by
    the fallback, and a callback then received through the completion-ingress
    endpoint moves it from ["completed"] back to ["pending"]; the four values
    observed are no subsequence of the lifecycle. *)
Lemma callback_leaves_terminal_state :
  observed "t1" (history [] (fallback_run ++ [ReceiverUpdate late_callback noon_9s]))
  = ["pending"; "processing"; "completed"; "pending"] ∧
  ¬ follows_lifecycle
      (observed "t1" (history [] (fallback_run ++ [ReceiverUpdate late_callback noon_9s]))).
Proof.
  assert (observed "t1"
            (history [] (fallback_run ++ [ReceiverUpdate late_callback noon_9s]))
          = ["pending"; "processing"; "completed"; "pending"]) as ->.
  { vm_compute. reflexivity. }
  split; [reflexivity|].
  intros [H|H]; apply sublist_length in H; simpl in H; lia.
Qed.

Lemma worker_follows_lifecycle_witness :
  follows_lifecycle
    (observed "t1"
       (one_pending ::
        _async_generate_image one_pending "t1" Finished noon_5s noon_9s
          (Faulted (Some noon_5s) TimeoutException))).
Proof.
  apply (worker_follows_lifecycle one_pending "t1" Finished noon_5s noon_9s
           (Faulted (Some noon_5s) TimeoutException) t1_pending); reflexivity.
Defined.

Lemma list_tasks_first_page_witness :
  ∃ total tasks,
    list_tasks three_rows (Some "pending") None None 1 0 = Ok (total, tasks) ∧
    api_list_tasks three_rows (Some "pending") None None 1 0
    = Ok (total, map task_to_dict tasks) ∧
    (length tasks ≤ Z.to_nat 1)%nat ∧
    descending row_below tasks ∧
    (∀ t, t ∈ tasks → t ∈ three_rows ∧ satisfies (Some "pending") None None t) ∧
    total = length (List.filter (matches (Some "pending") None None) three_rows) ∧
    (∀ t, matches (Some "pending") None None t = true ↔
          satisfies (Some "pending") None None t) ∧
    (∀ limit' offset',
       (- 2 ^ 63 ≤ limit' < 2 ^ 63)%Z → (- 2 ^ 63 ≤ offset' < 2 ^ 63)%Z →
       ∃ tasks',
         list_tasks three_rows (Some "pending") None None limit' offset'
         = Ok (total, tasks')) ∧
    (∀ limit' offset',
       ¬ ((- 2 ^ 63 ≤ limit' < 2 ^ 63)%Z ∧ (- 2 ^ 63 ≤ offset' < 2 ^ 63)%Z) →
       list_tasks three_rows (Some "pending") None None limit' offset'
       = Raise OverflowError).
Proof.
  apply (list_tasks_first_page three_rows (Some "pending") None None 1). lia.
Defined.

(** C9, as stated, fails: the offset 2^63 is not negative, and the query
    with it raises [OverflowError]; no total is returned. *)
Lemma list_tasks_beyond_64_bits :
  list_tasks three_rows (Some "pending") None None 10 (2 ^ 63) = Raise OverflowError.
Proof. reflexivity. Qed.

Example list_tasks_pending_newest :
  list_tasks three_rows (Some "pending") None None 1 0
  = Ok (2%nat, [ {| id := "t3"; prompt := "third"; status := "pending";
                 image_url := None; error_message := None;
                 created_at := Some (mkdt 2024 5 17 12 0 2 0);
                 completed_at := None; session_id := None; run_id := None |} ]).
Proof. vm_compute. reflexivity. Qed.

Example update_merges_t1 :
  upsert [t1_entry] t1_update
  = [ <["task_id" := PStr "t1"]>
      (<["prompt" := PStr "fruit puree"]>
      (<["status" := PStr "completed"]>
      (<["image_url" := PStr t1_url]>
      (<["created_at" := PStr (isoformat noon)]> ∅)))) ].
Proof. vm_compute. reflexivity. Qed.

(** The five non-terminal entries stay, followed by the fifteen most
    recently created terminal ones, newest first. *)
Example cleanup_crowded :
  _cleanup_old_tasks (Some crowded)
  = Ok (Some (set_tasks crowded
        (map (numbered "processing") (seq 0 5) ++
         map (numbered "completed") (rev (seq 20 15))))).
Proof. vm_compute. reflexivity. Qed.

Lemma cleanup_keeps_most_recent_witness :
  ∃ kept dropped,
    _cleanup_old_tasks (Some crowded)
    = Ok (Some (set_tasks crowded (pending_of crowded_tasks ++ kept))) ∧
    kept ++ dropped ≡ₚ completed_of crowded_tasks ∧
    (∀ a b, a ∈ kept → b ∈ dropped → entry_below a b = false) ∧
    length kept = 15%nat ∧
    length (pending_of crowded_tasks ++ kept) = 20%nat.
Proof.
  destruct (cleanup_keeps_most_recent crowded crowded_tasks)
    as (kept & dropped & H1 & H2 & _ & _ & H3 & _ & _ & _ & H4).
  - reflexivity.
  - vm_compute. lia.
  - apply text_keys_check. vm_compute. reflexivity.
  - exists kept, dropped.
    destruct H4 as [H4 H5]; [vm_compute; reflexivity | vm_compute; reflexivity |].
    repeat split; assumption.
Defined.


(** Twenty-one entries still in progress and the one without a status: the
    clean-up drops the latter. *)
Example cleanup_drops_no_status :
  _cleanup_old_tasks
    (Some (set_tasks empty_session_state
             (no_status :: map (numbered "pending") (seq 0 21))))
  = Ok (Some (set_tasks empty_session_state (map (numbered "pending") (seq 0 21)))).
Proof. vm_compute. reflexivity. Qed.

Example sync_t1 :
  sync_pending_tasks one_completed (Some t1_session)
  = (Synced 1 1 0,
     Some (set_tasks t1_session
             [task_to_dict
                (set_fields (Some "completed") (Some t1_url) None (Some noon_9s)
                   (set_fields (Some "processing") None None None t1_pending))])).
Proof. vm_compute. reflexivity. Qed.

Lemma sync_twice_same_cache_witness :
  (sync_pending_tasks one_completed
     (sync_pending_tasks one_completed (Some t1_session)).2).2
  = (sync_pending_tasks one_completed (Some t1_session)).2.
Proof.
  apply (sync_twice_same_cache one_completed (Some t1_session)).
  vm_compute. apply NoDup_singleton.
Defined.

Lemma tools_keep_cache_well_formed_witness :
  well_formed (_get_tasks_from_session_state
     (gen_session_state
        (generate_image one_completed (Some "second") None no_context
           (Some t1_session) "u-1" noon_5s noon_9s))) ∧
  well_formed (_get_tasks_from_session_state
     (sync_pending_tasks one_completed (Some t1_session)).2) ∧
  well_formed (_get_tasks_from_session_state
     (check_task_status one_completed "t1" (Some t1_session)).2).
Proof.
  destruct (tools_keep_cache_well_formed one_completed (Some t1_session))
    as (H1 & H2 & H3).
  - apply dated_run.
  - split.
    + vm_compute. apply NoDup_singleton.
    + apply text_keys_check. vm_compute. reflexivity.
  - split; [apply H1|]. split; [exact H2|apply H3].
Defined.

(** The write of the runner on a failure carries no [completed_at]: the row
    ends with the status ["failed"] and no completion time. *)
Example runner_failure_row :
  (last (_async_generate_image one_pending "t1" (Throws "boom") noon_5s noon_9s
           (Foreign 200))) ≫= (fun db => get_task db "t1")
  = Some {| id := "t1"; prompt := "fruit puree"; status := "failed";
            image_url := None; error_message := Some "boom";
            created_at := Some noon; completed_at := None;
            session_id := None; run_id := None |}.
Proof. vm_compute. reflexivity. Qed.

(** C5, as stated, fails: a cache of 21 terminal entries whose
    [created_at] is [None], the value [task_to_dict] gives for a row without
    a creation time.  Keys that are [None] cannot be sorted: the clean-up
    raises [TypeError] before it assigns the list, so nothing is evicted and
    the 21 entries stay.  The tools themselves write no such key from a
    Store whose rows have a creation time. *)
Example cleanup_none_keys :
  _cleanup_old_tasks
    (Some (set_tasks empty_session_state
       (map (fun i => <["created_at" := PNone]> (numbered "completed" i)) (seq 0 21))))
  = Raise TypeError.
Proof. vm_compute. reflexivity. Qed.

(** C8, as stated, fails: a list with two entries for ["t1"], the stale one
    before the pending one, and nineteen more entries.  The first sync
    merges the row into the stale entry and the clean-up moves the pending
    entry to the front, so the second sync merges into that one and the
    cache changes again.  The tools themselves build no such list, but the
    session state is not theirs alone to write. *)
Example sync_twice_two_entries_one_id :
  let cache :=
    set_tasks empty_session_state
      (stale_t1 :: t1_entry :: map (numbered "completed") (seq 0 19)) in
  (sync_pending_tasks one_completed
     (sync_pending_tasks one_completed (Some cache)).2).2
  ≠ (sync_pending_tasks one_completed (Some cache)).2.
Proof. vm_compute. discriminate. Qed.

Lemma create_task_then_get_witness :
  ∃ db' task,
    create_task one_pending "t2" "second" (Some "s-1") None noon_5s = Ok (db', task) ∧
    get_task db' "t2" = Some task ∧
    task = {| id := "t2"; prompt := "second"; status := "pending";
              image_url := None; error_message := None;
              created_at := Some noon_5s; completed_at := None;
              session_id := Some "s-1"; run_id := None |} ∧
    length db' = S (length one_pending) ∧
    (∀ other, other ≠ "t2" → get_task db' other = get_task one_pending other).
Proof.
  apply (create_task_then_get one_pending "t2" "second" (Some "s-1") None noon_5s).
  reflexivity.
Defined.

Lemma rows_persist_witness :
  ∃ t', get_task
          (run one_pending
             [RunnerStart "t1"; Create "t1" "other prompt" None None noon_5s;
              ReceiverUpdate late_callback noon_9s]) "t1" = Some t' ∧
        id t' = id t1_pending ∧ prompt t' = prompt t1_pending ∧
        created_at t' = created_at t1_pending ∧
        session_id t' = session_id t1_pending ∧ run_id t' = run_id t1_pending.
Proof.
  apply (rows_persist one_pending
           [RunnerStart "t1"; Create "t1" "other prompt" None None noon_5s;
            ReceiverUpdate late_callback noon_9s] "t1" t1_pending).
  reflexivity.
Defined.

Lemma worker_reaches_terminal_witness :
  ∃ db' t',
    last (_async_generate_image one_pending "t1" Finished noon_5s noon_9s
            (Delivered noon_9s)) = Some db' ∧
    get_task db' "t1" = Some t' ∧
    status t' = "completed" ∧ image_url t' = Some (generated_url "t1") ∧
    has_completed_at t' = true.
Proof.
  destruct (worker_reaches_terminal one_pending "t1" Finished noon_5s noon_9s
              (Delivered noon_9s) t1_pending eq_refl) as (db' & t' & H1 & H2 & H3 & _).
  exists db', t'. split; [exact H1|]. split; [exact H2|].
  apply H3. discriminate.
Defined.

Lemma cleanup_keeps_entries_in_progress_witness :
  pending_of (map (numbered "processing") (seq 0 5) ++
              map (numbered "completed") (rev (seq 20 15)))
  = pending_of crowded_tasks.
Proof.
  destruct (cleanup_keeps_entries_in_progress (Some crowded)
              (Some (set_tasks crowded
                 (map (numbered "processing") (seq 0 5) ++
                  map (numbered "completed") (rev (seq 20 15))))))
    as [H _].
  - vm_compute. reflexivity.
  - exact H.
Defined.

Lemma check_task_status_refreshes_witness :
  check_task_status one_completed "t1" (Some empty_session_state)
  = (StatusInfo (task_to_dict (set_fields (Some "completed") (Some t1_url) None
                   (Some noon_9s)
                   (set_fields (Some "processing") None None None t1_pending))),
     Some (set_tasks empty_session_state
             [task_to_dict (set_fields (Some "completed") (Some t1_url) None
                (Some noon_9s)
                (set_fields (Some "processing") None None None t1_pending))])).
Proof.
  pose proof (check_task_status_refreshes one_completed "t1" empty_session_state) as H.
  destruct H as (tasks' & H1 & _ & _ & H2); [discriminate|].
  rewrite H1, H2; [reflexivity|].
  intros e He. by apply elem_of_nil in He.
Defined.

Lemma generate_image_new_task_witness :
  let g := generate_image one_pending (Some "second") (Some "t2") no_context
             (Some t1_session) "u-1" noon_5s noon_9s in
  gen_message g = TaskSubmitted "t2" ∧
  gen_worker g = Some ("t2", "second") ∧
  (∃ row, gen_db g = one_pending ++ [row] ∧ status row = "pending").
Proof.
  destruct (generate_image_new_task one_pending (Some "second") (Some "t2") no_context
              (Some t1_session) "u-1" noon_5s noon_9s "second")
    as (H1 & H2 & (row & H3 & _ & _ & _ & H4 & _) & _).
  - split; [discriminate|by left].
  - reflexivity.
  - apply text_keys_check. vm_compute. reflexivity.
  - split; [exact H1|]. split; [exact H2|]. exists row. by split.
Defined.

Lemma sync_is_entry_wise_witness :
  (sync_pending_tasks one_completed (Some t1_session)).2
  = Some (set_tasks t1_session (map (sync_entry one_completed) [t1_entry])).
Proof.
  destruct (sync_is_entry_wise one_completed t1_session) as [_ H].
  - vm_compute. apply NoDup_singleton.
  - apply H.
    + vm_compute. lia.
    + vm_compute. discriminate.
Defined.

Lemma sync_reports_counts_witness :
  (sync_pending_tasks one_completed (Some t1_session)).1 = Synced 1 1 0.
Proof.
  rewrite (sync_reports_counts one_completed t1_session).
  - vm_compute. reflexivity.
  - apply dated_run.
  - split.
    + vm_compute. apply NoDup_singleton.
    + apply text_keys_check. vm_compute. reflexivity.
Defined.

Lemma timestamp_round_trip_witness :
  fromisoformat (replace_Z (isoformat noon_5s)) = Some noon_5s ∧
  fromisoformat (replace_Z (isoformat noon_5s ++ "Z")) = Some noon_5s.
Proof. apply (timestamp_round_trip noon_5s). reflexivity. Defined.

Lemma completion_time_is_notifiers_witness :
  ∃ db' t',
    last (_call_webhook one_pending "t1" t1_url noon_5s noon_9s (Delivered noon_9s))
    = Some db' ∧
    get_task db' "t1" = Some t' ∧
    status t' = "completed" ∧
    image_url t' = Some t1_url ∧
    completed_at t' = Some noon_5s.
Proof.
  apply (completion_time_is_notifiers one_pending "t1" t1_url noon_5s noon_9s
           (Delivered noon_9s) t1_pending); [reflexivity|reflexivity|discriminate].
Defined.

Lemma submitted_task_is_reported_witness :
  ∃ db' row tasks',
    last (_async_generate_image
            (gen_db (generate_image [] (Some "fruit puree") (Some "t1") no_context
                       (Some empty_session_state) "u1" noon noon))
            "t1" Finished noon_5s noon_9s (Faulted None TimeoutException)) = Some db' ∧
    check_task_status db' "t1" (Some empty_session_state)
    = (StatusInfo (task_to_dict row), Some (set_tasks empty_session_state tasks')) ∧
    id row = "t1" ∧ prompt row = "fruit puree" ∧ status row = "completed" ∧
    image_url row = Some (generated_url "t1") ∧ created_at row = Some noon ∧
    has_completed_at row = true ∧
    ∃ e, e ∈ tasks' ∧
         e !! "task_id" = Some (PStr "t1") ∧ e !! "prompt" = Some (PStr "fruit puree") ∧
         e !! "status" = Some (PStr "completed") ∧
         e !! "image_url" = Some (PStr (generated_url "t1")) ∧
         e !! "created_at" = Some (PStr (isoformat noon)).
Proof.
  apply (submitted_task_is_reported [] (Some "fruit puree") (Some "t1") no_context
           (Some empty_session_state) "u1" noon noon "t1" "fruit puree"
           noon_5s noon_9s (Faulted None TimeoutException) empty_session_state);
    [vm_compute; reflexivity|discriminate|discriminate].
Defined.
